(** * Fulcrum: option resolution, shutdown, dispatch and logging helpers

    A shallow embedding of the parts of [src/App.cpp], [src/Util.cpp] and
    [src/Pluralize2.cpp] that the specification speaks about, followed by the
    theorems that relate the embedding to the specification.

    Conventions.
    - A [QString] is a [string]; the operations used by the sources
      ([right], [endsWith], [truncate], [split], [isEmpty]) are written out.
    - C++ [int] values are [Z]; where the source relies on the width of the
      type the wrap-around is written out.
    - A [double] is a [spec_float] of the Standard Library (binary64), so the
      comparisons are the IEEE ones (every comparison with a NaN is false).
    - Code that throws returns a [result]; code that logs threads a list of
      log records.
    - What the sources take from Qt, from the operating system and from
      headers that are not among them is a field of an environment record,
      or, where the specification describes it, a definition whose comment
      starts with "Modelled from the spec". *)

From Stdlib Require Import ZArith List String Ascii Bool Lia.
From Stdlib Require Import DecimalString SpecFloat.
From stdpp Require Import base option list strings gmap.

Import ListNotations.
Local Open Scope string_scope.
Local Open Scope Z_scope.

(** ** Qt value types *)

Module Qt.

Definition QString := string.

Definition s2l (s : QString) : list ascii := list_ascii_of_string s.
Definition l2s (l : list ascii) : QString := string_of_list_ascii l.

(** [QString::length], an [int]. *)
Definition qlength (s : QString) : Z := Z.of_nat (String.length s).

Definition isEmpty (s : QString) : bool :=
  match s with EmptyString => true | _ => false end.

(** [QString::right(n)]: the [n] rightmost characters, the whole string
    when [n] is at least its length. *)
Definition right (n : nat) (s : QString) : QString :=
  l2s (drop (String.length s - n)%nat (s2l s)).

(** [QString::endsWith(QChar)], case sensitive. *)
Definition endsWith_char (c : ascii) (s : QString) : bool :=
  match List.last (map Some (s2l s)) None with
  | Some c' => Ascii.eqb c' c
  | None => false
  end.

(** [QString::endsWith(const QString &)], case sensitive. *)
Definition endsWith (suffix s : QString) : bool :=
  (String.length suffix <=? String.length s)%nat
  && String.eqb (right (String.length suffix) s) suffix.

(** [QString::startsWith(const QString &)], case sensitive. *)
Definition startsWith (prefix s : QString) : bool := String.prefix prefix s.

(** [QString::truncate(pos)]: keeps the first [pos] characters; a negative
    position empties the string. *)
Definition truncate (pos : Z) (s : QString) : QString :=
  l2s (take (Z.to_nat pos) (s2l s)).

(** The one-character string holding a double quote (code 34). *)
Definition dquote : QString := String (ascii_of_nat 34) EmptyString.

(** Decimal rendering of an integer, as [QTextStream] and
    [QString::number] print it. *)
Definition number (n : Z) : QString := NilZero.string_of_int (Z.to_int n).

(** [QChar::isSpace] on the Latin-1 range: tab, line feed, vertical tab,
    form feed, carriage return and space. *)
Definition isSpace (c : ascii) : bool :=
  let n := nat_of_ascii c in ((9 <=? n) && (n <=? 13))%nat || (n =? 32)%nat.

Fixpoint skipSpace (l : list ascii) : list ascii :=
  match l with
  | c :: r => if isSpace c then skipSpace r else l
  | [] => []
  end.

(** [QString::trimmed]: white space removed from both ends. *)
Definition trimmed (s : QString) : QString :=
  l2s (rev (skipSpace (rev (skipSpace (s2l s))))).

Definition toLower_char (c : ascii) : ascii :=
  let n := nat_of_ascii c in
  if ((65 <=? n) && (n <=? 90))%nat then ascii_of_nat (n + 32) else c.

Definition toLower (s : QString) : QString := l2s (map toLower_char (s2l s)).

(** [QString::split(sep)] for a one-character separator, keeping empty
    parts (the default behaviour). *)
Fixpoint split (sep : ascii) (s : QString) : list QString :=
  match s with
  | EmptyString => [EmptyString]
  | String a r =>
      if Ascii.eqb a sep then EmptyString :: split sep r
      else match split sep r with
           | h :: t => String a h :: t
           | [] => [String a EmptyString]
           end
  end.

(** [QStringList::join(sep)]. *)
Fixpoint join (sep : QString) (l : list QString) : QString :=
  match l with
  | [] => EmptyString
  | [x] => x
  | x :: r => x +:+ sep +:+ join sep r
  end.

(** [QStringList::contains]. *)
Definition contains (l : list QString) (x : QString) : bool :=
  existsb (String.eqb x) l.

(** *** [QDebug] streams

    The text written so far, the flag that inserts a space after each
    item and the flag that suppresses the quotes around a [QString]. *)
Record QDebug := { buffer : QString; space : bool; noQuotes : bool }.

Definition resetFormat (d : QDebug) : QDebug :=
  {| buffer := buffer d; space := true; noQuotes := false |}.
Definition noquote (d : QDebug) : QDebug :=
  {| buffer := buffer d; space := space d; noQuotes := true |}.
Definition nospace (d : QDebug) : QDebug :=
  {| buffer := buffer d; space := false; noQuotes := noQuotes d |}.

Definition maybeSpace (d : QDebug) : QDebug :=
  if space d
  then {| buffer := buffer d +:+ " "; space := space d; noQuotes := noQuotes d |}
  else d.

Definition put (t : QString) (d : QDebug) : QDebug :=
  {| buffer := buffer d +:+ t; space := space d; noQuotes := noQuotes d |}.

(** [dbg << int] and [dbg << const char *]. *)
Definition shl_int (n : Z) (d : QDebug) : QDebug := maybeSpace (put (number n) d).
Definition shl_cstr (t : string) (d : QDebug) : QDebug := maybeSpace (put t d).
(** [dbg << QString]: quoted unless [noquote] is in force (the escaping
    of unprintable characters inside the quotes is left out). *)
Definition shl_QString (t : QString) (d : QDebug) : QDebug :=
  maybeSpace (put (if noQuotes d then t else dquote +:+ t +:+ dquote) d).

(** The state of the stream [qDebug()], [qInfo()], ... hand out. *)
Definition fresh : QDebug := {| buffer := EmptyString; space := true; noQuotes := false |}.

(** The message a stream hands to the message handler when it is
    destroyed: a trailing space left by the automatic spacing is cut. *)
Definition message (d : QDebug) : QString :=
  if space d && endsWith_char " " (buffer d)
  then truncate (qlength (buffer d) - 1) (buffer d)
  else buffer d.

End Qt.

(** ** [src/Pluralize2.cpp] *)

Module Pluralize2.
Import Qt.

(** "[w] ends in [sfx]", as the specification uses the phrase. *)
Definition ends_in (sfx w : QString) : Prop := exists p, w = p +:+ sfx.

Definition INT_MIN : Z := - 2 ^ 31.
Definition INT_MAX : Z := 2 ^ 31 - 1.

(** The value an [int] expression takes after two's complement
    wrap-around. *)
Definition wrap_int (z : Z) : Z := (z + 2 ^ 31) mod 2 ^ 32 - 2 ^ 31.

(** [qAbs] on [int]: [t >= 0 ? t : -t]. *)
Definition qAbs (t : Z) : Z := if 0 <=? t then t else wrap_int (- t).

Record Pluralize2 := mk { _n : Z; _wordIn : QString }.

(** [QDebug operator<<(QDebug dbg, const Pluralize2 &p)], up to its
    [return]. *)
Definition shl_Pluralize2 (dbg : QDebug) (p : Pluralize2) : QDebug :=
  let dbg := noquote (resetFormat dbg) in
  if negb (qAbs (_n p) =? 1) then
    let word := _wordIn p in
    let ending := "s" in
    let wordend := right 2 word in
    let '(word, ending) :=
      if endsWith_char "s" wordend || String.eqb wordend "sh" then (word, "es")
      else if endsWith_char "y" wordend
           then (truncate (qlength word - 1) word, "ies")
           else (word, ending) in
    shl_QString ending (shl_QString word (shl_cstr " " (shl_int (_n p) (nospace dbg))))
  else
    shl_QString (_wordIn p) (shl_int (_n p) dbg).

(** What the operator prints on a fresh stream. *)
Definition printed (n : Z) (w : QString) : QString :=
  buffer (shl_Pluralize2 fresh (mk n w)).

End Pluralize2.

(** ** Application options ([Options.h], the fields the sources below use) *)

Module Options.
Import Qt.

(** An endpoint: host text as given and port. *)
Definition Interface : Type := QString * Z.

Inductive KeyAlgorithm := Rsa | Ec | Dsa | Dh.

Record CertInfo := {
  file : QString;
  keyFile : QString;
  keyAlgorithm : KeyAlgorithm;
  selfSigned : bool;
  certChain : nat               (* number of certificates in the chain *)
}.

(** [Options::LogTimestampMode]; [TsNone] is the enumerator [None]. *)
Inductive LogTimestampMode := TsNone | Uptime | Local | UTC.

Record Options := {
  verboseDebug : bool;
  verboseTrace : bool;
  syslogMode : bool;
  doSlowDbChecks : bool;
  pollTimeSecs : spec_float;
  datadir : QString;
  bitcoind : QString * Z;
  bitcoindUsesTls : bool;
  rpcuser : QString;
  rpcpassword : QString;
  hasIPv6Listener : bool;
  interfaces : list Interface;
  wsInterfaces : list Interface;
  wssInterfaces : list Interface;
  sslInterfaces : list Interface;
  statsInterfaces : list Interface;
  adminInterfaces : list Interface;
  certInfo : option CertInfo;
  wssCertInfo : option CertInfo;
  logTimestampMode : LogTimestampMode;
  tlsDisallowDeprecated : bool;
  dumpScriptHashes : QString
}.

(** binary64: 53 bits of precision, largest exponent 1024. *)
Definition prec : Z := 53.
Definition emax : Z := 1024.
Definition double_of_Z (m e : Z) : spec_float := binary_normalize prec emax m e false.

(** Modelled from the spec: [Options::minPollTimeSecs] and
    [Options::maxPollTimeSecs] are declared in [Options.h], which is not
    among the sources; the specification and the help text of [-T] in
    [App.cpp] give the range as 0.5 to 30. *)
Definition minPollTimeSecs : spec_float := double_of_Z 1 (-1).
Definition maxPollTimeSecs : spec_float := double_of_Z 30 0.
Definition DEFAULT_PORT_TCP : Z := 50001.

End Options.

(** ** [src/Util.cpp] *)

Module Util.
Import Qt.

(** *** The clock: [t0], [getTime], [getTimeNS], [isClockSteady] *)

(** [std::chrono::high_resolution_clock] as the program sees it: the
    compile-time [is_steady] flag, the tick period in seconds as a ratio,
    and the tick count each successive call of [now()] returns (call 0 is
    the one that initialises the static [t0]). *)
Record Clock := {
  is_steady : bool;
  period_num : Z;
  period_den : Z;
  now : nat -> Z
}.

(** [std::chrono::duration_cast] from the clock's period to a period of
    [1/per_sec] seconds: an exact product followed by a division that
    truncates towards zero. *)
Definition duration_cast (c : Clock) (per_sec : Z) (ticks : Z) : Z :=
  Z.quot (ticks * (period_num c * per_sec)) (period_den c).

Definition t0 (c : Clock) : Z := now c 0.

(** [getTime()] evaluated by the [k]-th call of [now()]. *)
Definition getTime (c : Clock) (k : nat) : Z :=
  duration_cast c 1000 (now c k - t0 c).

Definition getTimeNS (c : Clock) (k : nat) : Z :=
  duration_cast c 1000000000 (now c k - t0 c).

Definition isClockSteady (c : Clock) : bool := is_steady c.

(** What the C++ standard promises of a clock: a positive period, and,
    when [is_steady] is true, readings that never decrease. *)
Definition clock_ok (c : Clock) : Prop :=
  0 < period_num c /\ 0 < period_den c /\
  (is_steady c = true -> forall i j : nat, (i <= j)%nat -> now c i <= now c j).

(** A steady clock that ticks in nanoseconds and is read every
    microsecond. *)
Definition clock_us : Clock :=
  {| is_steady := true; period_num := 1; period_den := 1000000000;
     now := fun k => 1000 * Z.of_nat k |}.

(** A clock that is not steady and is set back between two readings. *)
Definition clock_set_back : Clock :=
  {| is_steady := false; period_num := 1; period_den := 1000000000;
     now := fun k => match k with 1%nat => 5000000000 | _ => 0 end |}.

(** *** [LambdaOnObject] *)

Definition Job := nat.
Definition Thread := nat.

(** What the target's event loop does with the functor queued by
    [QTimer::singleShot(0, obj, ...)]: it never runs it (the target is
    destroyed or its loop has stopped), or it starts it [start] ms after
    the submission and the job inside it returns at [finish]. *)
Inductive Delivery := Dropped | Runs (start finish : Z).

Record Call := {
  lambda : option Job;        (* [None]: an empty [std::function] *)
  currentThread : Thread;
  objThread : Thread;
  objThreadRunning : bool;
  timeout_ms : Z;
  delivery : Delivery
}.

(** [ret]: the value returned; [completed]: the jobs that have run to
    completion when the call returns; [late]: the jobs the queued functor
    had already started when the caller gave up. *)
Record Outcome := { ret : bool; completed : list Job; late : list Job }.

(** Modelled from the spec: [VariantChannel::get<bool>(timeout_ms)] is
    declared in [Util.h], which is not among the sources; the
    specification describes it as a wait on a single-shot channel for
    completion that yields false on timeout. The queued functor runs the
    job only while the caller still holds the shared state, that is while
    it is still waiting ([weakShared.lock()]), and puts [true] once the
    job has returned. *)
Definition queued_call (job : Job) (timeout : Z) (d : Delivery) : Outcome :=
  match d with
  | Dropped => {| ret := false; completed := []; late := [] |}
  | Runs start finish =>
      if timeout <=? start then {| ret := false; completed := []; late := [] |}
      else if finish <? timeout then {| ret := true; completed := [job]; late := [] |}
      else {| ret := false; completed := []; late := [job] |}
  end.

Definition LambdaOnObject (c : Call) : Outcome :=
  match lambda c with
  | None => {| ret := true; completed := []; late := [] |}
  | Some job =>
      if Nat.eqb (currentThread c) (objThread c)
      then {| ret := true; completed := [job]; late := [] |}
      else if negb (objThreadRunning c)
           then {| ret := false; completed := []; late := [] |}
           else queued_call job (timeout_ms c) (delivery c)
  end.

(** *** [Pluralize] *)

(** Modelled from the spec: [Util::Pluralize(word, n)] is declared in
    [Util.h], which is not among the sources. The specification gives the
    rule: the word itself when the count is 1 or -1; otherwise [es] after
    a final [s] or [sh], [ies] in place of a final [y], and [s] after
    anything else. *)
Definition Pluralize (wordIn : QString) (n : Z) : QString :=
  if Z.abs n =? 1 then wordIn
  else if endsWith "s" wordIn || endsWith "sh" wordIn then wordIn +:+ "es"
  else if endsWith "y" wordIn then truncate (qlength wordIn - 1) wordIn +:+ "ies"
  else wordIn +:+ "s".

(** *** The logging front ends: [Log], [Debug], [Trace], [Error], [Warning] *)

Inductive Level := Info | LWarning | Critical | Fatal | LDebug.

Inductive Color :=
| Normal | Black | Red | Green | Yellow | Blue | Magenta | Cyan | White
| BrightBlack | BrightRed | BrightGreen | BrightYellow | BrightBlue
| BrightMagenta | BrightCyan | BrightWhite.

Definition Color_eqb (a b : Color) : bool :=
  match a, b with
  | Normal, Normal | Black, Black | Red, Red | Green, Green | Yellow, Yellow
  | Blue, Blue | Magenta, Magenta | Cyan, Cyan | White, White
  | BrightBlack, BrightBlack | BrightRed, BrightRed | BrightGreen, BrightGreen
  | BrightYellow, BrightYellow | BrightBlue, BrightBlue
  | BrightMagenta, BrightMagenta | BrightCyan, BrightCyan
  | BrightWhite, BrightWhite => true
  | _, _ => false
  end.

Record Logger := { isaTTY : bool }.

(** The application object as the logging code sees it through [app()]. *)
Record App := {
  options : Options.Options;
  logger : option Logger;
  thread : Thread
}.

(** The calling thread: its identity, its [objectName] and the text
    [%p] prints for its id. *)
Record ThreadInfo := { tid : Thread; objectName : QString; idText : QString }.

Record Log := {
  level : Level;
  str : QString;
  doprt : bool;
  color : Color;
  colorOverridden : bool;
  useColor : bool
}.

(** A record handed to the sink: [toLogger] is false when it went to
    [std::cerr] because no logger exists. *)
Record LogRecord := { toLogger : bool; rlevel : Level; text : QString }.

Definition esc : QString := String (ascii_of_nat 27) EmptyString.

Definition colorString (c : Color) : QString :=
  let suffix :=
    match c with
    | Black => "[30m" | Red => "[31m" | Green => "[32m" | Yellow => "[33m"
    | Blue => "[34m" | Magenta => "[35m" | Cyan => "[36m" | White => "[37m"
    | BrightBlack => "[30;1m" | BrightRed => "[31;1m"
    | BrightGreen => "[1,32m" | BrightYellow => "[33;1m"
    | BrightBlue => "[34;1m" | BrightMagenta => "[35;1m"
    | BrightCyan => "[36;1m" | BrightWhite => "[37;1m"
    | Normal => "[0m"
    end in
  esc +:+ suffix.

Definition colorify (l : Log) (s : QString) (c : Color) : QString :=
  let on := useColor l && negb (Color_eqb c Normal) in
  let colorStr := if on then colorString c else EmptyString in
  let normalStr := if on then colorString Normal else EmptyString in
  colorStr +:+ s +:+ normalStr.

(** [printf("%03d")]: at least three characters, zero padded after the
    sign. *)
Definition fmt_03d (n : Z) : QString :=
  let digits := number (Z.abs n) in
  let width := if n <? 0 then 2%nat else 3%nat in
  let pad := l2s (replicate (width - String.length digits) "0"%char) in
  (if n <? 0 then "-" else EmptyString) +:+ pad +:+ digits.

(** [Log::~Log]; [tnow] is the value [Util::getTime()] returns there. *)
Definition Log_dtor (ourApp : option App) (th : option ThreadInfo) (tnow : Z)
           (l : Log) : list LogRecord :=
  if doprt l then
    let tsStr := "[" +:+ number (Z.quot tnow 1000) +:+ "." +:+ fmt_03d (Z.rem tnow 1000) +:+ "] " in
    let thrdStr :=
      match th, ourApp with
      | Some t, Some a =>
          if negb (Nat.eqb (tid t) (thread a)) then
            let thrdName := if isEmpty (trimmed (objectName t)) then idText t
                            else objectName t in
            "<Thread: " +:+ thrdName +:+ "> "
          else EmptyString
      | _, _ => EmptyString
      end in
    let lg := match ourApp with Some a => logger a | None => None end in
    let theString :=
      tsStr +:+ thrdStr +:+
      (match lg with
       | Some g => if isaTTY g then colorify l (str l) (color l) else str l
       | None => str l
       end) in
    match lg with
    | Some _ => [ {| toLogger := true; rlevel := level l; text := theString |} ]
    | None => [ {| toLogger := false; rlevel := level l; text := theString |} ]
    end
  else [].

Definition Debug_isEnabled (ourApp : option App) : bool :=
  match ourApp with
  | None => true
  | Some a => Options.verboseDebug (options a)
  end.

Definition Trace_isEnabled (ourApp : option App) : bool :=
  match ourApp with
  | None => false
  | Some a => Options.verboseTrace (options a) && Debug_isEnabled ourApp
  end.

(** [Debug::~Debug]; the base class destructor [Log::~Log] runs after. *)
Definition Debug_dtor (ourApp : option App) (l : Log) : Log :=
  let en := Debug_isEnabled ourApp in
  if negb en
  then {| level := LDebug; str := str l; doprt := en; color := color l;
          colorOverridden := colorOverridden l; useColor := useColor l |}
  else {| level := LDebug; str := "(Debug) " +:+ str l; doprt := en;
          color := if colorOverridden l then color l else Cyan;
          colorOverridden := colorOverridden l; useColor := useColor l |}.

(** [Trace::~Trace]. *)
Definition Trace_dtor (ourApp : option App) (l : Log) : Log :=
  let en := Trace_isEnabled ourApp in
  if negb en
  then {| level := LDebug; str := str l; doprt := en; color := color l;
          colorOverridden := colorOverridden l; useColor := useColor l |}
  else {| level := LDebug; str := "(Trace) " +:+ str l; doprt := en;
          color := if colorOverridden l then color l else Green;
          colorOverridden := colorOverridden l; useColor := useColor l |}.

(** [Error::~Error] and [Warning::~Warning]. *)
Definition Error_dtor (l : Log) : Log :=
  {| level := Critical; str := str l; doprt := doprt l;
     color := if colorOverridden l then color l else BrightRed;
     colorOverridden := colorOverridden l; useColor := useColor l |}.
Definition Warning_dtor (l : Log) : Log :=
  {| level := LWarning; str := str l; doprt := doprt l;
     color := if colorOverridden l then color l else Yellow;
     colorOverridden := colorOverridden l; useColor := useColor l |}.

(** What destroying a [Trace] (respectively [Debug]) object emits. *)
Definition Trace_emit ourApp th tnow (l : Log) : list LogRecord :=
  Log_dtor ourApp th tnow (Trace_dtor ourApp l).
Definition Debug_emit ourApp th tnow (l : Log) : list LogRecord :=
  Log_dtor ourApp th tnow (Debug_dtor ourApp l).

End Util.

(** ** The configuration file *)

Module ConfigFile.
Import Qt.

(** Modelled from the spec: [ConfigFile] is declared in [ConfigFile.h],
    which is not among the sources. The specification describes the file
    as simple [key = value] lines in which a repeated key yields a list;
    the model is the list of the pairs read, in file order, with look-up
    by the exact key. *)
Definition ConfigFile : Type := list (QString * QString).

Definition hasValue (c : ConfigFile) (name : QString) : bool :=
  existsb (fun kv => String.eqb (fst kv) name) c.

Definition values (c : ConfigFile) (name : QString) : list QString :=
  map snd (filter (fun kv => String.eqb (fst kv) name = true) c).

Definition value (c : ConfigFile) (name : QString) (def : QString) : QString :=
  match values c name with
  | v :: _ => v
  | [] => def
  end.

Definition remove (c : ConfigFile) (name : QString) : ConfigFile :=
  filter (fun kv => String.eqb (fst kv) name = false) c.

(** Modelled from the spec: boolean values accept [yes], [true], [on],
    [1] and the empty value; an absent key is false. *)
Definition boolValue (c : ConfigFile) (name : QString) : bool :=
  match values c name with
  | v :: _ => contains ["yes"; "true"; "on"; "1"; EmptyString] (toLower (trimmed v))
  | [] => false
  end.

End ConfigFile.

(** ** [QCommandLineParser] *)

Module CommandLine.
Import Qt.

(** A [QCommandLineOption]: its names, the name of its value (empty for
    a flag) and its default values. The help text is left out. *)
Record Option_ := {
  names : list QString;
  valueName : QString;
  defaultValues : list QString
}.

(** The state of the parser after [process()]: the options added, the
    option names found on the command line as they were typed, each with
    its value when the option takes one, and the positional arguments. *)
Record Parser := {
  table : list Option_;
  found : list (QString * option QString);
  positionalArguments : list QString
}.

Definition lookup (tbl : list Option_) (name : QString) : option Option_ :=
  List.find (fun o => contains (names o) name) tbl.

(** The names that denote the same option as [name]. *)
Definition aliases (p : Parser) (name : QString) : list QString :=
  match lookup (table p) name with
  | Some o => names o
  | None => []
  end.

Definition optionNames (p : Parser) : list QString := map fst (found p).

(** [isSet]: all the names of an option are equivalent. *)
Definition isSet (p : Parser) (name : QString) : bool :=
  contains (optionNames p) name
  || existsb (fun typed => contains (aliases p name) typed) (optionNames p).

(** [values]: one entry for each time the option was met with a value,
    under any of its names; the default values when there is none. *)
Definition values (p : Parser) (name : QString) : list QString :=
  match lookup (table p) name with
  | Some o =>
      let vs := omap (fun nv => if contains (names o) (fst nv) then snd nv else None)
                     (found p) in
      match vs with
      | [] => defaultValues o
      | _ => vs
      end
  | None => []
  end.

(** [value]: the last of [values], the null string when there is none. *)
Definition value (p : Parser) (name : QString) : QString :=
  List.last (values p name) EmptyString.

(** [QStringList::count(name)] on [optionNames()]. *)
Definition count (l : list QString) (name : QString) : Z :=
  Z.of_nat (List.length (filter (fun x => String.eqb x name = true) l)).

End CommandLine.

(** ** [src/App.cpp] *)

Module App.
Import Qt.
Import Options.
Import CommandLine.

(** *** Exceptions, exits and the log *)

Inductive Exception :=
| BadArgs (what : QString)
| InternalError (what : QString)
| OtherException (what : QString).

Definition what (e : Exception) : QString :=
  match e with BadArgs w | InternalError w | OtherException w => w end.

(** How a piece of code ends: normally, by throwing, or in
    [std::exit(code)]. *)
Inductive result (A : Type) :=
| Ok (a : A)
| Throw (e : Exception)
| Exit (code : Z).
Arguments Ok {A} a.
Arguments Throw {A} e.
Arguments Exit {A} code.

(** A message given to [qDebug], [qInfo], [qWarning] or [qCritical]. *)
Definition Msg : Type := Util.Level * QString.

(** Code that logs and may throw: the messages written, in order, and the
    way it ended. *)
Definition M (A : Type) : Type := list Msg * result A.

Definition ret {A} (a : A) : M A := ([], Ok a).
Definition throw {A} (e : Exception) : M A := ([], Throw e).
Definition exit {A} (code : Z) : M A := ([], Exit code).
Definition say (m : Msg) : M unit := ([m], Ok tt).

Definition bind {A B} (m : M A) (k : A -> M B) : M B :=
  match m with
  | (l, Ok a) => let '(l', r) := k a in ((l ++ l')%list, r)
  | (l, Throw e) => (l, Throw e)
  | (l, Exit c) => (l, Exit c)
  end.

Notation "'let*' x := m 'in' k" := (bind m (fun x => k))
  (at level 10, x pattern, m at level 100, k at level 200).
Notation "m ;; k" := (bind m (fun _ => k))
  (at level 100, k at level 200, right associativity).

(** [for (const auto & x : l) body], threading an accumulator. *)
Fixpoint forM {A S} (l : list A) (s : S) (body : S -> A -> M S) : M S :=
  match l with
  | [] => ret s
  | x :: r => let* s' := body s x in forM r s' body
  end.

(** *** What the code asks of Qt, of the operating system and of the
    headers that are not among the sources *)

Record FileInfo := {
  isDir : bool; isReadable : bool; isExecutable : bool; isWritable : bool
}.

Record Env := {
  (* QString conversions: the value and the [ok] flag *)
  toDouble : QString -> spec_float * bool;
  toUShort : QString -> Z * bool;
  toInt : QString -> Z * bool;
  (* [QString::number] and [QString::arg] of a [double] *)
  number_double : spec_float -> QString;
  (* [QHostAddress(s)]: [None] when [isNull()], else whether it is IPv6 *)
  hostAddress : QString -> option bool;
  getenv : QString -> option QString;
  supportsSsl : bool;
  supportedEllipticCurves : bool;       (* some curve is supported *)
  (* [Options::verboseDebug] before the arguments are read, and the
     default of [-T] ([Options.h]) *)
  isDebugBuild : bool;
  defaultPollTimeSecs : spec_float;
  (* the hooks registered for [--test] and [--bench]: name, and the
     message of the exception the hook throws, if it throws *)
  registeredTests : list (QString * option QString);
  registeredBenches : list (QString * option QString);
  (* [ConfigFile::open] *)
  confOpen : QString -> option ConfigFile.ConfigFile;
  (* the file system *)
  fileInfo : QString -> option FileInfo;          (* [None]: does not exist *)
  canonicalFilePath : QString -> QString;
  mkpath : QString -> bool;
  fileExists : QString -> bool;
  fileOpenError : QString -> option QString;      (* [None]: opens *)
  readCert : QString -> option (bool * nat);      (* self signed, chain size *)
  readKey : QString -> KeyAlgorithm -> bool;      (* non-null with this algorithm *)
  (* [Q_OS_UNIX] is defined *)
  isUnix : bool;
  (* the values [Options.h] gives to [logTimestampMode],
     [tlsDisallowDeprecated] and [dumpScriptHashes] *)
  defaultLogTimestampMode : LogTimestampMode;
  defaultTlsDisallowDeprecated : bool;
  defaultDumpScriptHashes : QString;
  (* the keys read after the listeners, before [tor_proxy] (lines 647 to
     841 of [App.cpp]) and after it (lines 846 to 926): they assign to
     fields of [Options] that are not modelled and can only make
     [parseArgs] throw *)
  lateOptions : ConfigFile.ConfigFile -> Parser -> Options -> option Exception;
  lateOptionsAfterTor : ConfigFile.ConfigFile -> Parser -> Options -> option Exception
}.

(** *** [App::startup]: the signal handler [gotsig] *)

Inductive SigAction :=
| InitiateExit (sig : Z)      (* [qInfo] and [app()->exit(sig)] *)
| Duplicate (sig : Z)         (* "Duplicate signal ... ignoring" *)
| Abort (sig : Z).            (* "caught more than 5 times", [std::abort()] *)

(** One run of the handler; [ct] is its static counter. *)
Definition gotsig (ct : Z) (sig : Z) : Z * SigAction :=
  let ct' := Pluralize2.wrap_int (ct + 1) in
  if ct =? 0 then (ct', InitiateExit sig)
  else if ct' <? 5 then (ct', Duplicate sig)
  else (ct', Abort sig).

(** The handler run on each delivery in turn; [std::abort] ends the
    process, so nothing is handled after it. *)
Fixpoint deliver (ct : Z) (sigs : list Z) : list SigAction :=
  match sigs with
  | [] => []
  | sig :: rest =>
      let '(ct', a) := gotsig ct sig in
      a :: match a with
           | Abort _ => []
           | _ => deliver ct' rest
           end
  end.

(** The text the handler prints for an action. *)
Definition sig_text (a : SigAction) : QString :=
  match a with
  | InitiateExit sig =>
      message (shl_cstr ", exiting ..." (shl_int sig (shl_cstr "Got signal: " fresh)))
  | Duplicate sig => "Duplicate signal " +:+ number sig +:+ " already being handled, ignoring"
  | Abort sig => "Signal " +:+ number sig +:+ " caught more than 5 times, aborting"
  end.

(** *** [App::cleanup_WaitForThreadPoolWorkers] *)

(** Modelled from the spec: [ThreadPool] is declared in [ThreadPool.h],
    which is not among the sources. [extantJobs()] is the count of the
    jobs queued or running; [shutdownWaitForJobs(timeout_ms)] blocks new
    submissions, waits for the drain up to the timeout and returns
    whether the pool quiesced. [remainingAfter t] is the count of the
    jobs still extant [t] ms after the shutdown began. *)
Record ThreadPool := {
  extant : Z;
  blockNew : bool;
  remainingAfter : Z -> Z
}.

Definition extantJobs (tp : ThreadPool) : Z := extant tp.

Definition shutdownWaitForJobs (timeout_ms : Z) (tp : ThreadPool) : bool * ThreadPool :=
  let left := remainingAfter tp timeout_ms in
  (left =? 0,
   {| extant := left; blockNew := true;
      remainingAfter := fun t => remainingAfter tp (timeout_ms + t) |}).

(** [qRound(double(ms) / 1e3)] for a reading [ms] of [QElapsedTimer],
    which is never negative: the nearest integer, halves upwards. *)
Definition qRound_secs (ms : Z) : Z := Z.quot (ms + 500) 1000.

(** [printf("%0.3f", ms / 1e3)]. *)
Definition fmt_secs (ms : Z) : QString :=
  number (Z.quot ms 1000) +:+ "." +:+ Util.fmt_03d (Z.rem ms 1000).

Definition timeout : Z := 5000.

Definition still_active_msg (elapsed nJobs : Z) : QString :=
  "After " +:+ number (qRound_secs elapsed) +:+ " seconds, " +:+ number nJobs
  +:+ " thread pool " +:+ Util.Pluralize "worker" nJobs +:+ " "
  +:+ (if Pluralize2.qAbs nJobs =? 1 then "is" else "are")
  +:+ " still active. App may abort with an error.".

Definition waited_msg (elapsed nJobs : Z) : QString :=
  "Successfully waited for " +:+ number nJobs +:+ " thread pool "
  +:+ Util.Pluralize "worker" nJobs +:+ " (elapsed: " +:+ fmt_secs elapsed +:+ " secs)".

(** [elapsed] is the reading of the timer [t0] when the message is
    formatted. The result is the messages logged and the pool as the wait
    left it. *)
Definition cleanup_WaitForThreadPoolWorkers (tp : ThreadPool) (elapsed : Z)
  : list Msg * ThreadPool :=
  let nJobs := extantJobs tp in
  let l1 := if negb (nJobs =? 0)
            then [(Util.Info, "Waiting for extant thread pool workers ...")]
            else [] in
  let '(res, tp') := shutdownWaitForJobs timeout tp in
  let l2 := if negb res then [(Util.LWarning, still_active_msg elapsed nJobs)]
            else if negb (nJobs =? 0) then [(Util.LDebug, waited_msg elapsed nJobs)]
            else [] in
  ((l1 ++ l2)%list, tp').

(** A pool with two extant jobs of which one finishes 3 s into the wait
    and the other does not finish. *)
Definition pool_two_one : ThreadPool :=
  {| extant := 2; blockNew := false;
     remainingAfter := fun t => if t <? 3000 then 2 else 1 |}.

(** *** [App::on_setVerboseDebug], [App::on_setVerboseTrace] *)

Definition set_verbose (o : Options) (dbg trc : bool) : Options :=
  {| verboseDebug := dbg; verboseTrace := trc;
     syslogMode := syslogMode o; doSlowDbChecks := doSlowDbChecks o;
     pollTimeSecs := pollTimeSecs o; datadir := datadir o;
     bitcoind := bitcoind o; bitcoindUsesTls := bitcoindUsesTls o;
     rpcuser := rpcuser o; rpcpassword := rpcpassword o;
     hasIPv6Listener := hasIPv6Listener o; interfaces := interfaces o;
     wsInterfaces := wsInterfaces o; wssInterfaces := wssInterfaces o;
     sslInterfaces := sslInterfaces o; statsInterfaces := statsInterfaces o;
     adminInterfaces := adminInterfaces o; certInfo := certInfo o;
     wssCertInfo := wssCertInfo o;
     logTimestampMode := logTimestampMode o;
     tlsDisallowDeprecated := tlsDisallowDeprecated o;
     dumpScriptHashes := dumpScriptHashes o |}.

Definition on_setVerboseDebug (b : bool) (o : Options) : Options :=
  set_verbose o b (if negb b then false else verboseTrace o).

Definition on_setVerboseTrace (b : bool) (o : Options) : Options :=
  set_verbose o (if b then true else verboseDebug o) b.

(** *** [App::parseArgs] *)

Definition opt (ns : list QString) (vname : QString) (defs : list QString) : Option_ :=
  {| names := ns; valueName := vname; defaultValues := defs |}.

(** The list [allOptions]; [--test] and [--bench] are added when hooks
    are registered. *)
Definition allOptions (env : Env) : list Option_ :=
  ([ opt ["D"; "datadir"] "path" [];
     opt ["t"; "tcp"] "interface:port" [];
     opt ["s"; "ssl"] "interface:port" [];
     opt ["w"; "ws"] "interface:port" [];
     opt ["W"; "wss"] "interface:port" [];
     opt ["c"; "cert"] "crtfile" [];
     opt ["k"; "key"] "keyfile" [];
     opt ["wss-cert"] "crtfile" [];
     opt ["wss-key"] "keyfile" [];
     opt ["a"; "admin"] "[interface:]port" [];
     opt ["z"; "stats"] "[interface:]port" [];
     opt ["b"; "bitcoind"] "hostname:port" [];
     opt ["bitcoind-tls"] EmptyString [];
     opt ["u"; "rpcuser"] "username" [];
     opt ["p"; "rpcpassword"] "password" [];
     opt ["d"; "debug"] EmptyString [];
     opt ["q"; "quiet"] EmptyString [];
     opt ["S"; "syslog"] EmptyString [];
     opt ["C"; "checkdb"] EmptyString [];
     opt ["T"; "polltime"] "polltime" [number_double env (defaultPollTimeSecs env)];
     opt ["ts-format"] "keyword" [];
     opt ["tls-disallow-deprecated"] EmptyString [];
     opt ["dump-sh"] "outputfile" [] ]
   ++ (match registeredTests env with [] => [] | _ => [opt ["test"] "test" []] end)
   ++ (match registeredBenches env with [] => [] | _ => [opt ["bench"] "benchmark" []] end))%list.

(** The parser after [addHelpOption], [addVersionOption],
    [addOptions(allOptions)] and [process]. *)
Definition mkParser (env : Env) (fnd : list (QString * option QString))
           (pos : list QString) : Parser :=
  {| table := opt ["h"; "help"] EmptyString []
              :: opt ["v"; "version"] EmptyString [] :: allOptions env;
     found := fnd; positionalArguments := pos |}.

(** [--test] and [--bench], lines 365 to 397. *)
Definition runHooks (p : Parser) (optName label missing : QString)
           (registered : list (QString * option QString)) : M Z :=
  match registered with
  | [] => ret 0
  | _ =>
      if isSet p optName then
        forM (values p optName) tt (fun _ tname =>
          match List.find (fun h => String.eqb (fst h) tname) registered with
          | None => throw (BadArgs (missing +:+ tname))
          | Some (name, thrown) =>
              say (Util.Info, message (shl_cstr " ..." (shl_QString name (shl_cstr label fresh)))) ;;
              match thrown with
              | Some w => throw (OtherException w)
              | None => ret tt
              end
          end) ;;
        ret 1
      else ret 0
  end.

Definition testsAndBenches (env : Env) (p : Parser) : M unit :=
  let body :=
    let* a := runHooks p "test" "Running test: " "No such test: " (registeredTests env) in
    let* b := runHooks p "bench" "Running benchmark: " "No such bench: " (registeredBenches env) in
    if negb (a + b =? 0) then exit 0 else ret tt in
  match body with
  | (l, Throw e) => ((l ++ [(Util.Critical, "Caught exception: " +:+ what e)])%list, Exit 1)
  | r => r
  end.

(** The configuration file, lines 404 to 415. *)
Definition openConf (env : Env) (p : Parser) : M ConfigFile.ConfigFile :=
  match positionalArguments p with
  | [] => ret []
  | file :: more =>
      match more with
      | _ :: _ => throw (BadArgs "More than 1 config file was specified. Please specify at most 1 config file.")
      | [] =>
          match confOpen env file with
          | None => throw (BadArgs ("Unable to open config file " +:+ file))
          | Some conf => ret conf
          end
      end
  end.

(** The text [DupeMsg] hands to [qInfo]. *)
Definition DupeMsg (arg : QString) : QString :=
  message (shl_cstr "' specified both via the CLI and the configuration file. The CLI arg will take precedence."
             (shl_QString arg (shl_cstr "'" fresh))).

(** "first warn user about dupes", lines 417 to 429. *)
Definition warnDupe (p : Parser) (conf : ConfigFile.ConfigFile) (name : QString)
  : M ConfigFile.ConfigFile :=
  if qlength name =? 1 then ret conf
  else if ConfigFile.hasValue conf name && isSet p name
       then say (Util.Info, DupeMsg name) ;; ret (ConfigFile.remove conf name)
       else ret conf.

Definition warnDupes (opts : list Option_) (p : Parser) (conf : ConfigFile.ConfigFile)
  : M ConfigFile.ConfigFile :=
  forM opts conf (fun conf o => forM (names o) conf (warnDupe p)).

(** The test the source applies to a [debug] value of the file. *)
Definition truthy (env : Env) (s : QString) : bool :=
  negb (fst (toInt env s) =? 0)
  || contains ["yes"; "true"; "on"; EmptyString] (toLower s).

(** [-d], [-q], [-S], [-C], lines 431 to 449: the new values of
    [verboseDebug], [verboseTrace], [syslogMode] and [doSlowDbChecks]. *)
Definition flags (env : Env) (p : Parser) (conf : ConfigFile.ConfigFile)
           (o : Options) : bool * bool * bool * bool :=
  let dbg := if isSet p "d" || ConfigFile.boolValue conf "debug" then true
             else verboseDebug o in
  let fnd := optionNames p in
  let trc :=
    if 1 <? count fnd "d" + count fnd "debug" then true
    else
      let l := ConfigFile.values conf "debug" in
      let ctr := fold_left (fun ctr s => ctr + (if truthy env s then 1 else 0)) l 0 in
      if 1 <? ctr then true else verboseTrace o in
  let dbg := if isSet p "q" || ConfigFile.boolValue conf "quiet" then false else dbg in
  let sys := if isSet p "S" || ConfigFile.boolValue conf "syslog" then true
             else syslogMode o in
  let chk := if isSet p "C" || ConfigFile.boolValue conf "checkdb" then true
             else doSlowDbChecks o in
  (dbg, trc, sys, chk).

Definition polltime_msg (env : Env) : QString :=
  "The 'polltime' option must be a numeric value in the range ["
  +:+ number_double env minPollTimeSecs +:+ ", "
  +:+ number_double env maxPollTimeSecs +:+ "]".

(** The check of a converted poll time: [d < min || !ok || d > max]. *)
Definition polltime_rejected (d : spec_float) (ok : bool) : bool :=
  SFltb d minPollTimeSecs || negb ok || SFltb maxPollTimeSecs d.

(** [--polltime], lines 450 to 456. *)
Definition parsePollTime (env : Env) (p : Parser) (conf : ConfigFile.ConfigFile)
  : M spec_float :=
  let polltimeStr := ConfigFile.value conf "polltime" (value p "T") in
  let '(d, ok) := toDouble env polltimeStr in
  if polltime_rejected d ok then throw (BadArgs (polltime_msg env))
  else ret d.

Definition isSomeb {A} (o : option A) : bool :=
  match o with Some _ => true | None => false end.

(** The options that must be present, lines 457 to 478. *)
Definition requiredOption (env : Env) (p : Parser) (conf : ConfigFile.ConfigFile)
           (o : QString * QString * option QString) : M unit :=
  let '(s, l, envName) := o in
  let cliIsSet := isSet p s in
  let confIsSet := ConfigFile.hasValue conf l in
  let envVar := match envName with Some e => getenv env e | None => None end in
  (if (cliIsSet || confIsSet) && isSomeb envVar then
     say (Util.LWarning,
          message
            (shl_cstr " will take precendence."
            (shl_cstr (if cliIsSet then "CLI arg" else "config file setting")
            (shl_cstr "). The "
            (shl_cstr (default EmptyString envName)
            (shl_cstr " and the environement (as "
            (shl_cstr (if cliIsSet then "CLI" else "config file")
            (shl_cstr " is specified both via the "
            (shl_QString l
            (shl_cstr "Warning: " fresh))))))))))
   else ret tt) ;;
  if ((negb cliIsSet && negb confIsSet) || isEmpty (ConfigFile.value conf l (value p s)))
     && (negb (isSomeb envName) || negb (isSomeb envVar))
  then throw (BadArgs ("Required option missing or empty: -" +:+ s +:+ " (--" +:+ l +:+ ")"
                       +:+ match envName with
                           | Some e => " (or env var: " +:+ e +:+ ")"
                           | None => EmptyString
                           end))
  else if (1 <? length (values p s))%nat
  then throw (BadArgs ("Option specified multiple times: -" +:+ s +:+ " (--" +:+ l +:+ ")"))
  else if (1 <? length (ConfigFile.values conf l))%nat
  then throw (BadArgs ("This option cannot be specified multiple times in the config file: " +:+ l))
  else ret tt.

Definition RPCUSER : QString := "RPCUSER".
Definition RPCPASSWORD : QString := "RPCPASSWORD".

Definition requiredOptions (env : Env) (p : Parser) (conf : ConfigFile.ConfigFile) : M unit :=
  forM [("D", "datadir", None); ("b", "bitcoind", None);
        ("u", "rpcuser", Some RPCUSER); ("p", "rpcpassword", Some RPCPASSWORD)]
       tt (fun _ o => requiredOption env p conf o).

(** The lambdas [parsePort], [parseHostnamePortPair], [parseInterface]
    and [parseInterfaces], lines 479 to 518. *)
Definition parsePort (env : Env) (portStr : QString) : M Z :=
  let '(port, ok) := toUShort env portStr in
  if negb ok || (port =? 0) then throw (BadArgs ("Bad port: " +:+ portStr))
  else ret port.

Definition msg1 : QString :=
  "Malformed host:port spec. Please specify a string of the form <host>:<port>".

Definition LocalHost : QString := "127.0.0.1".

Definition parseHostnamePortPair (env : Env) (s : QString) (allowImplicitLoopback : bool)
  : M (QString * Z) :=
  let toks := split ":" s in
  let len := length toks in
  if (len <? 2)%nat then
    if allowImplicitLoopback && (len =? 1)%nat
    then let* port := parsePort env (List.hd EmptyString toks) in ret (LocalHost, port)
    else throw (BadArgs msg1)
  else
    let portStr := List.last toks EmptyString in
    let toks := removelast toks in
    let hostStr := join ":" toks in
    if isEmpty hostStr then throw (BadArgs msg1)
    else let* port := parsePort env portStr in ret (hostStr, port).

(** The accumulator is [options->hasIPv6Listener]. *)
Definition parseInterface (env : Env) (allowImplicitLoopback : bool)
           (v6 : bool) (s : QString) : M (bool * Interface) :=
  let* hp := parseHostnamePortPair env s allowImplicitLoopback in
  let '(hostStr, port) := hp in
  match hostAddress env hostStr with
  | None => throw (BadArgs ("Bad interface address: " +:+ hostStr))
  | Some isV6 => ret (v6 || isV6, (hostStr, port))
  end.

Definition parseInterfaces (env : Env) (v6 : bool) (l : list QString)
           (supportsLoopbackImplicitly : bool) : M (bool * list Interface) :=
  forM l (v6, []) (fun acc s =>
    let* r := parseInterface env supportsLoopbackImplicitly (fst acc) s in
    ret (fst r, (snd acc ++ [snd r])%list)).

(** [datadir], lines 520 to 535 (the deferred debug lines are left
    out). *)
Definition parseDatadir (env : Env) (p : Parser) (conf : ConfigFile.ConfigFile) : M QString :=
  let dir := ConfigFile.value conf "datadir" (value p "D") in
  let path := canonicalFilePath env dir in
  match fileInfo env dir with
  | Some fi =>
      if negb (isDir fi)
      then throw (BadArgs ("The specified path " +:+ dquote +:+ path +:+ dquote
                           +:+ " already exists but is not a directory"))
      else if negb (isReadable fi) || negb (isExecutable fi) || negb (isWritable fi)
      then throw (BadArgs ("Bad permissions for path " +:+ dquote +:+ path +:+ dquote
                           +:+ " (must be readable, writable, and executable)"))
      else ret dir
  | None =>
      if negb (mkpath env dir) then throw (BadArgs ("Unable to create directory: " +:+ dir))
      else ret dir
  end.

Definition checkSupportsSsl (env : Env) : M unit :=
  if negb (supportsSsl env)
  then throw (InternalError "SSL support is not compiled and/or linked to this version. Cannot proceed with SSL support. Sorry!")
  else ret tt.

(** The value list of a listener kind: the file's when the file has the
    key, else the command line's. *)
Definition listenerValues (p : Parser) (conf : ConfigFile.ConfigFile)
           (long short : QString) : list QString :=
  if ConfigFile.hasValue conf long then ConfigFile.values conf long else values p short.

Definition isNil {A} (l : list A) : bool :=
  match l with [] => true | _ => false end.

(** [App::makeCertInfo], lines 962 to 1071 (the deferred log lines are
    left out). *)
Definition probeKey (env : Env) (key : QString) : option KeyAlgorithm :=
  List.find (readKey env key) [Rsa; Ec; Dsa; Dh].

Definition makeCertInfo (env : Env) (cert key : QString) : M CertInfo :=
  if negb (fileExists env cert) then throw (BadArgs ("Cert file not found: " +:+ cert))
  else if negb (fileExists env key) then throw (BadArgs ("Key file not found: " +:+ key))
  else match fileOpenError env cert with
  | Some err => throw (BadArgs ("Unable to open cert file " +:+ cert +:+ ": " +:+ err))
  | None =>
  match fileOpenError env key with
  | Some err => throw (BadArgs ("Unable to open key file " +:+ key +:+ ": " +:+ err))
  | None =>
  match probeKey env key with
  | None => throw (BadArgs ("Unable to read private key from " +:+ key
               +:+ ". Please make sure the file is readable and contains an RSA, DSA, EC, or DH private key in PEM format."))
  | Some algo =>
      if (match algo with Ec => true | _ => false end) && negb (supportedEllipticCurves env)
      then throw (BadArgs ("Private key `" +:+ key
               +:+ "` is an elliptic curve key, however this Qt installation lacks elliptic curve support. Please recompile and link Qt against the OpenSSL library in order to enable elliptic curve support in Qt."))
      else
      match readCert env cert with
      | None => throw (BadArgs ("Unable to read ssl certificate from " +:+ cert
               +:+ ". Please make sure the file is readable and contains a valid certificate in PEM format."))
      | Some (selfSgn, chain) =>
          if negb selfSgn && (chain <? 2)%nat
          then throw (BadArgs ("File '" +:+ cert
               +:+ "' does not appear to be a full certificate chain." +:+ String (ascii_of_nat 10) EmptyString
               +:+ "Please make sure your CA signed certificate is the fullchain.pem file."))
          else ret {| file := cert; keyFile := key; keyAlgorithm := algo;
                      selfSigned := selfSgn; certChain := if selfSgn then 0%nat else chain |}
      end
  end end end.

(** The certificate and key of the secure listeners, lines 586 to 628. *)
Definition pairCheck (c k txt : QString) : M unit :=
  if negb (Bool.eqb (isEmpty c) (isEmpty k))
  then throw (BadArgs (txt +:+ " must both be specified"))
  else ret tt.

Definition parseCerts (env : Env) (p : Parser) (conf : ConfigFile.ConfigFile)
           (hasSSL hasWSS : bool) : M (option CertInfo * option CertInfo) :=
  if hasSSL || hasWSS then
    checkSupportsSsl env ;;
    let cert := ConfigFile.value conf "cert" (value p "c") in
    let key := ConfigFile.value conf "key" (value p "k") in
    let wssCert := ConfigFile.value conf "wss-cert" (value p "wss-cert") in
    let wssKey := ConfigFile.value conf "wss-key" (value p "wss-key") in
    pairCheck cert key "`cert` and `key`" ;;
    pairCheck wssCert wssKey "`wss-cert` and `wss-key`" ;;
    if isEmpty cert && (hasSSL || isEmpty wssCert)
    then throw (BadArgs ((if hasSSL then "SSL" else "WSS")
                         +:+ " option requires both -c/--cert and -k/--key options be specified"))
    else if negb (isEmpty wssCert) && negb hasWSS
    then throw (BadArgs "wss-cert option specified but no WSS listening ports defined")
    else
      let '(cert, key, wssCert, wssKey) :=
        if isEmpty cert && negb (isEmpty wssCert)
        then (wssCert, wssKey, EmptyString, EmptyString)
        else (cert, key, wssCert, wssKey) in
      if isEmpty cert || isEmpty key
      then throw (InternalError "Internal Error: cert and/or key is empty")
      else
        let* ci := makeCertInfo env cert key in
        if negb (isEmpty wssCert) then
          if isEmpty wssKey then throw (InternalError "Internal Error: wss-key is empty")
          else let* wci := makeCertInfo env wssCert wssKey in ret (Some ci, Some wci)
        else ret (Some ci, None)
  else ret (None, None).

(** One listener kind, lines 549 to 585: the list parsed from the
    values when there are any, else the list as it was. *)
Definition parseListeners (env : Env) (v6 : bool) (l : list QString)
           (current : list Interface) : M (bool * list Interface) :=
  if negb (isNil l) then parseInterfaces env v6 l false else ret (v6, current).

(** The options as the constructor of [App] sets them up before
    [parseArgs] runs. *)
Definition initialOptions (env : Env) : Options :=
  {| verboseDebug := isDebugBuild env; verboseTrace := false;
     syslogMode := false; doSlowDbChecks := false;
     pollTimeSecs := defaultPollTimeSecs env; datadir := EmptyString;
     bitcoind := (EmptyString, 0); bitcoindUsesTls := false;
     rpcuser := EmptyString; rpcpassword := EmptyString;
     hasIPv6Listener := false;
     interfaces := [("0.0.0.0", DEFAULT_PORT_TCP)];
     wsInterfaces := []; wssInterfaces := []; sslInterfaces := [];
     statsInterfaces := []; adminInterfaces := [];
     certInfo := None; wssCertInfo := None;
     logTimestampMode := defaultLogTimestampMode env;
     tlsDisallowDeprecated := defaultTlsDisallowDeprecated env;
     dumpScriptHashes := defaultDumpScriptHashes env |}.

(** What [parseArgs] has resolved when it reaches the certificates: the
    configuration file as the warning loop left it, and the values it has
    assigned to the options so far. *)
Record Early := {
  e_conf : ConfigFile.ConfigFile;
  e_verboseDebug : bool;
  e_verboseTrace : bool;
  e_syslogMode : bool;
  e_doSlowDbChecks : bool;
  e_pollTimeSecs : spec_float;
  e_datadir : QString;
  e_bitcoind : QString * Z;
  e_bitcoindUsesTls : bool;
  e_rpcuser : QString;
  e_rpcpassword : QString;
  e_hasIPv6Listener : bool;
  e_interfaces : list Interface;
  e_wsInterfaces : list Interface;
  e_wssInterfaces : list Interface;
  e_sslInterfaces : list Interface
}.

(** [App::parseArgs] up to the listeners, lines 365 to 585. The lines that
    queue debug output for later ([Util::AsyncOnObject]) and the
    assignments to the announced ports ([publicTcp] and the like, which
    are no field of the model) are left out. *)
Definition parseArgs_listeners (env : Env) (p : Parser) : M Early :=
  let o := initialOptions env in
  testsAndBenches env p ;;
  let* conf := openConf env p in
  let* conf := warnDupes (allOptions env) p conf in
  let '(dbg, trc, sys, chk) := flags env p conf o in
  let* poll := parsePollTime env p conf in
  requiredOptions env p conf ;;
  let* dir := parseDatadir env p conf in
  let* bd := parseHostnamePortPair env (ConfigFile.value conf "bitcoind" (value p "b")) false in
  let bdTls := isSet p "bitcoind-tls" || ConfigFile.boolValue conf "bitcoind-tls" in
  (if bdTls then checkSupportsSsl env else ret tt) ;;
  let user := ConfigFile.value conf "rpcuser"
                (if isSet p "u" then value p "u" else default EmptyString (getenv env RPCUSER)) in
  let pass := ConfigFile.value conf "rpcpassword"
                (if isSet p "p" then value p "p" else default EmptyString (getenv env RPCPASSWORD)) in
  let tcpL := listenerValues p conf "tcp" "t" in
  let tcpIsDefault := isNil tcpL in
  let* tcp := parseListeners env (hasIPv6Listener o) tcpL (interfaces o) in
  let wsL := listenerValues p conf "ws" "w" in
  let* ws := parseListeners env (fst tcp) wsL (wsInterfaces o) in
  let tcpI := if negb (isNil wsL) && tcpIsDefault then [] else snd tcp in
  let wssL := listenerValues p conf "wss" "W" in
  let* wss := parseListeners env (fst ws) wssL (wssInterfaces o) in
  let tcpI := if negb (isNil wssL) && tcpIsDefault then [] else tcpI in
  let sslL := listenerValues p conf "ssl" "s" in
  let* ssl := parseListeners env (fst wss) sslL (sslInterfaces o) in
  let tcpI := if negb (isNil sslL) && tcpIsDefault then [] else tcpI in
  ret {| e_conf := conf;
         e_verboseDebug := dbg; e_verboseTrace := trc;
         e_syslogMode := sys; e_doSlowDbChecks := chk;
         e_pollTimeSecs := poll; e_datadir := dir;
         e_bitcoind := bd; e_bitcoindUsesTls := bdTls;
         e_rpcuser := user; e_rpcpassword := pass;
         e_hasIPv6Listener := fst ssl;
         e_interfaces := tcpI;
         e_wsInterfaces := snd ws; e_wssInterfaces := snd wss;
         e_sslInterfaces := snd ssl |}.

Definition hasSSL (e : Early) : bool := negb (isNil (e_sslInterfaces e)).
Definition hasWSS (e : Early) : bool := negb (isNil (e_wssInterfaces e)).

(** [tor_proxy], lines 842 to 845: the call of [parseInterface] may throw
    and, like every call of it, sets [hasIPv6Listener]. *)
Definition parseTorProxy (env : Env) (conf : ConfigFile.ConfigFile) (v6 : bool) : M bool :=
  if ConfigFile.hasValue conf "tor_proxy"
  then let* r := parseInterface env true v6 (ConfigFile.value conf "tor_proxy" EmptyString) in
       ret (fst r)
  else ret v6.

(** [--ts-format], lines 927 to 948: the keyword the source compares the
    text with, and the mode it assigns. *)
Definition tsFormatMode (fmt : QString) : option LogTimestampMode :=
  if String.eqb fmt "uptime" || String.eqb fmt "abs" || String.eqb fmt "abstime"
  then Some Uptime
  else if startsWith "local" fmt then Some Local
  else if String.eqb fmt "utc" then Some UTC
  else if String.eqb fmt "none" then Some TsNone
  else None.

Definition parseTsFormat (env : Env) (p : Parser) (conf : ConfigFile.ConfigFile)
           (syslog : bool) (current : LogTimestampMode) : M LogTimestampMode :=
  let fmt := value p "ts-format" in
  let fmt :=
    if negb (isEmpty fmt) then fmt
    else
      let fmt := ConfigFile.value conf "ts-format" EmptyString in
      if negb (isEmpty fmt) then fmt
      else ConfigFile.value conf "ts_format" EmptyString in
  if negb (isEmpty fmt) then
    let fmt := trimmed (toLower fmt) in
    match tsFormatMode fmt with
    | Some m => ret m
    | None => throw (BadArgs ("ts-format: unrecognized value " +:+ dquote +:+ fmt +:+ dquote))
    end
  else if isUnix env && syslog then ret TsNone
  else ret current.

(** The options with the fields the last lines of [parseArgs] assign
    (lines 842 to 960). *)
Definition set_late (o : Options) (v6 : bool) (ts : LogTimestampMode) (tls : bool)
           (dump : QString) : Options :=
  {| verboseDebug := verboseDebug o; verboseTrace := verboseTrace o;
     syslogMode := syslogMode o; doSlowDbChecks := doSlowDbChecks o;
     pollTimeSecs := pollTimeSecs o; datadir := datadir o;
     bitcoind := bitcoind o; bitcoindUsesTls := bitcoindUsesTls o;
     rpcuser := rpcuser o; rpcpassword := rpcpassword o;
     hasIPv6Listener := v6; interfaces := interfaces o;
     wsInterfaces := wsInterfaces o; wssInterfaces := wssInterfaces o;
     sslInterfaces := sslInterfaces o; statsInterfaces := statsInterfaces o;
     adminInterfaces := adminInterfaces o; certInfo := certInfo o;
     wssCertInfo := wssCertInfo o;
     logTimestampMode := ts; tlsDisallowDeprecated := tls; dumpScriptHashes := dump |}.

(** [App::parseArgs] from the command line as [QCommandLineParser] found
    it (the option names typed with their values, and the positional
    arguments; [process] has dealt with [--help], [--version] and the
    options it does not know). *)
Definition parseArgs (env : Env) (fnd : list (QString * option QString))
           (pos : list QString) : M Options :=
  let p := mkParser env fnd pos in
  let* e := parseArgs_listeners env p in
  let conf := e_conf e in
  let* certs := parseCerts env p conf (hasSSL e) (hasWSS e) in
  let* stats := parseInterfaces env (e_hasIPv6Listener e) (listenerValues p conf "stats" "z") true in
  let* admin := parseInterfaces env (fst stats) (listenerValues p conf "admin" "a") true in
  let o' :=
    {| verboseDebug := e_verboseDebug e; verboseTrace := e_verboseTrace e;
       syslogMode := e_syslogMode e; doSlowDbChecks := e_doSlowDbChecks e;
       pollTimeSecs := e_pollTimeSecs e; datadir := e_datadir e;
       bitcoind := e_bitcoind e; bitcoindUsesTls := e_bitcoindUsesTls e;
       rpcuser := e_rpcuser e; rpcpassword := e_rpcpassword e;
       hasIPv6Listener := fst admin;
       interfaces := e_interfaces e;
       wsInterfaces := e_wsInterfaces e; wssInterfaces := e_wssInterfaces e;
       sslInterfaces := e_sslInterfaces e;
       statsInterfaces := snd stats; adminInterfaces := snd admin;
       certInfo := fst certs; wssCertInfo := snd certs;
       logTimestampMode := defaultLogTimestampMode env;
       tlsDisallowDeprecated := defaultTlsDisallowDeprecated env;
       dumpScriptHashes := defaultDumpScriptHashes env |} in
  match lateOptions env conf p o' with
  | Some ex => throw ex
  | None =>
      let* v6 := parseTorProxy env conf (fst admin) in
      let o' := set_late o' v6 (logTimestampMode o') (tlsDisallowDeprecated o')
                         (dumpScriptHashes o') in
      match lateOptionsAfterTor env conf p o' with
      | Some ex => throw ex
      | None =>
          let* ts := parseTsFormat env p conf (e_syslogMode e) (defaultLogTimestampMode env) in
          let tls := if isSet p "tls-disallow-deprecated"
                        || ConfigFile.boolValue conf "tls-disallow-deprecated"
                     then true else defaultTlsDisallowDeprecated env in
          let dump := if negb (isEmpty (value p "dump-sh")) then value p "dump-sh"
                      else defaultDumpScriptHashes env in
          ret (set_late o' v6 ts tls dump)
      end
  end.

(** *** The constructor of [App] *)

(** How the constructor ends: the process has left through
    [std::exit], or the application is constructed and [startup], which
    alone opens listeners, is queued. *)
Inductive Boot :=
| Exited (code : Z)
| Constructed (o : Options).

Definition construct (env : Env) (fnd : list (QString * option QString))
           (pos : list QString) : list Msg * Boot :=
  match parseArgs env fnd pos with
  | (l, Ok o) => (l, Constructed o)
  | (l, Throw e) =>
      ((l ++ [(Util.Critical, what e);
              (Util.Info, message (shl_cstr "Use the -h option to show help." fresh))])%list,
       Exited 1)
  | (l, Exit c) => (l, Exited c)
  end.

(** *** A sample environment

    Used by the examples below: conversions that know unsigned decimal
    numerals (and, for [toDouble], the words [nan] and [inf], which
    [QString::toDouble] accepts), three host addresses, a data directory
    [/tmp/d], a configuration file [fulcrum.conf] that sets [polltime] and
    [cert], and the PEM files [cert.pem] and [key.pem]. *)

Fixpoint decimal_aux (l : list ascii) (acc : Z) : option Z :=
  match l with
  | [] => Some acc
  | c :: r =>
      let n := Z.of_nat (nat_of_ascii c) in
      if (48 <=? n) && (n <=? 57) then decimal_aux r (10 * acc + (n - 48)) else None
  end.

Definition decimal (s : QString) : option Z :=
  match s2l s with
  | [] => None
  | l => decimal_aux l 0
  end.

Definition sample_toDouble (s : QString) : spec_float * bool :=
  match decimal s with
  | Some n => (double_of_Z n 0, true)
  | None =>
      if String.eqb s "nan" then (S754_nan, true)
      else if String.eqb s "inf" then (S754_infinity false, true)
      else (S754_zero false, false)
  end.

Definition sample_toInt (bound : Z) (s : QString) : Z * bool :=
  match decimal s with
  | Some n => if n <=? bound then (n, true) else (0, false)
  | None => (0, false)
  end.

Definition sample_env : Env :=
  {| toDouble := sample_toDouble;
     toUShort := sample_toInt 65535;
     toInt := sample_toInt 2147483647;
     number_double := fun d =>
       if SFeqb d minPollTimeSecs then "0.5"
       else if SFeqb d maxPollTimeSecs then "30" else "2";
     hostAddress := fun s =>
       if String.eqb s "0.0.0.0" || String.eqb s "127.0.0.1" then Some false
       else if String.eqb s "::1" then Some true else None;
     getenv := fun _ => None;
     supportsSsl := true;
     supportedEllipticCurves := true;
     isDebugBuild := false;
     defaultPollTimeSecs := double_of_Z 2 0;
     registeredTests := [];
     registeredBenches := [];
     confOpen := fun f =>
       if String.eqb f "fulcrum.conf"
       then Some [("polltime", "3"); ("cert", "other.pem")] else None;
     fileInfo := fun f =>
       if String.eqb f "/tmp/d"
       then Some {| isDir := true; isReadable := true; isExecutable := true; isWritable := true |}
       else None;
     canonicalFilePath := fun f => f;
     mkpath := fun _ => true;
     fileExists := fun f => String.eqb f "cert.pem" || String.eqb f "key.pem";
     fileOpenError := fun _ => None;
     readCert := fun _ => Some (true, 1%nat);
     readKey := fun _ algo => match algo with Rsa => true | _ => false end;
     isUnix := true;
     defaultLogTimestampMode := Local;
     defaultTlsDisallowDeprecated := false;
     defaultDumpScriptHashes := EmptyString;
     lateOptions := fun _ _ _ => None;
     lateOptionsAfterTor := fun _ _ _ => None |}.

(** The arguments every run needs: [-D /tmp/d -b 127.0.0.1:8332 -u u -p p]. *)
Definition required_args : list (QString * option QString) :=
  [("D", Some "/tmp/d"); ("b", Some "127.0.0.1:8332"); ("u", Some "u"); ("p", Some "p")].

(** *** The stats HTTP server: [ParseParams] and [App::start_httpServer] *)

(** A [QVariant] as the snapshots use it: the null variant, scalars,
    lists and maps. *)
#[warnings="-register-all"]
Inductive QVariant :=
| VNull
| VBool (b : bool)
| VInt (n : Z)
| VDouble (d : spec_float)
| VString (s : QString)
| VList (l : list QVariant)
| VMap (m : list (QString * QVariant)).

Definition isNull (v : QVariant) : bool :=
  match v with VNull => true | _ => false end.

Definition QByteArray := string.
Definition CRLF : QByteArray :=
  String (ascii_of_nat 13) (String (ascii_of_nat 10) EmptyString).

Record Response := { contentType : QString; data : QByteArray }.
Record Request := { queryString : QString; response : Response }.

(** [StatsMixin::StatsParams], a map from names to values. *)
Definition ParseParams (req : Request) : gmap string string :=
  let nvps := split "&" (queryString req) in
  fold_left (fun params nvp =>
               let nv := split "=" nvp in
               if (length nv =? 2)%nat
               then <[ List.hd EmptyString nv := List.last nv EmptyString ]> params
               else params)
            nvps ∅.







Definition msg404 : QByteArray :=
  "Error: Unknown endpoint. /stats & /debug are the only valid endpoint I understand." +:+ CRLF.

End App.

(** ** The specification's words *)

Module Spec.
Import Qt.

(** Section 4.H: what the handler is to do on the [i]-th delivery (counted
    from 0): the first initiates the shutdown, the second to the fourth
    are ignored with a message, the fifth forces an abort. *)
Definition signal_action (i : nat) (sig : Z) : App.SigAction :=
  if (i =? 0)%nat then App.InitiateExit sig
  else if (i <? 4)%nat then App.Duplicate sig
  else App.Abort sig.

Definition is_exit (a : App.SigAction) : bool :=
  match a with App.InitiateExit _ => true | _ => false end.

(** Section 3: the poll interval is a real in [[0.5, 30.0]]. *)
Definition polltime_in_range (d : spec_float) : bool :=
  SFleb Options.minPollTimeSecs d && SFleb d Options.maxPollTimeSecs.



End Spec.

(** ** Words for the statements about text *)

Module Text.
Import Qt.

(** The character [c] does not occur in [s]. *)
Definition lacks (c : ascii) (s : QString) : Prop := ~ In c (s2l s).

End Text.

(** ** More of [src/Util.cpp]: [basename], [Json], [RunInThread] *)

Module UtilMore.
Import Qt.

(** [Util::basename]. The pattern the source gives to [QRegExp] is the
    character class that holds an escaped slash, so the string is split at
    each [/]; the result is the last part. *)
Definition basename (s : QString) : QString :=
  List.last (split "/" s) EmptyString.

(** *** [Util::Json]: [parseString], [toString] *)

(** A [QJsonDocument]: null, an array or an object. *)
Inductive QJsonDocument :=
| DocNull
| DocArray (l : list App.QVariant)
| DocObject (m : list (QString * App.QVariant)).

(** [QJsonDocument::toVariant] and [QJsonDocument::fromVariant]: only a
    list or a map makes a document. *)
Definition toVariant (d : QJsonDocument) : App.QVariant :=
  match d with
  | DocNull => App.VNull
  | DocArray l => App.VList l
  | DocObject m => App.VMap m
  end.

Definition fromVariant (v : App.QVariant) : QJsonDocument :=
  match v with
  | App.VList l => DocArray l
  | App.VMap m => DocObject m
  | _ => DocNull
  end.

Definition doc_isNull (d : QJsonDocument) : bool :=
  match d with DocNull => true | _ => false end.

(** The text side of [QJsonDocument], which is Qt's: [fromJson] with the
    error text it reports, and [toJson] in the compact or the indented
    format. *)
Record Codec := {
  fromJson : App.QByteArray -> QJsonDocument * QString;
  toJson : QJsonDocument -> bool -> App.QByteArray
}.

Inductive JsonException :=
| ParseError (what : QString)
| Error (what : QString).

Definition isMap (v : App.QVariant) : bool :=
  match v with App.VMap _ => true | _ => false end.
Definition isList (v : App.QVariant) : bool :=
  match v with App.VList _ => true | _ => false end.

(** [Json::parseString(str, expectMap)]. *)
Definition parseString (q : Codec) (str : QString) (expectMap : bool)
  : App.QVariant + JsonException :=
  let '(d, e) := fromJson q str in
  if doc_isNull d then inr (ParseError ("Error parsing Json from string: " +:+ e))
  else
    let v := toVariant d in
    if expectMap && negb (isMap v)
    then inr (Error "Json Error, expected map, got a list instead")
    else if negb expectMap && negb (isList v)
    then inr (Error "Json Error, expected list, got a map instead")
    else inl v.

(** [Json::toString(v, compact)]. *)
Definition toString (q : Codec) (v : App.QVariant) (compact : bool)
  : QString + JsonException :=
  if App.isNull v then inr (Error "Empty or invalid QVariant passed to Json::toString")
  else
    let d := fromVariant v in
    if doc_isNull d then inr (Error "Bad QVariant pased to Json::toString")
    else inl (toJson q d compact).

(** A codec that knows two texts: the empty array and the empty object. *)
Definition sample_codec : Codec :=
  {| fromJson := fun s =>
       if String.eqb s "[]" then (DocArray [], EmptyString)
       else if String.eqb s "{}" then (DocObject [], EmptyString)
       else (DocNull, "illegal value");
     toJson := fun d _ =>
       match d with
       | DocArray _ => "[]"
       | DocObject _ => "{}"
       | DocNull => EmptyString
       end |}.

(** *** [RunInThread]: the extant set and [blockNew] *)

(** The static state: [blockNew] and the set [extant] of the helper
    threads that have been started and are not done. *)
Record Threads := { blockNew : bool; extant : gset nat }.

(** What the constructor does to it for the object [this]: the thread is
    entered and started unless [blockNew] is set; the flag tells whether
    it was started. *)
Definition construct (this : nat) (st : Threads) : Threads * bool :=
  if negb (blockNew st)
  then ({| blockNew := blockNew st; extant := {[ this ]} ∪ extant st |}, true)
  else (st, false).

(** [RunInThread::done]: the flag tells whether [cond.wakeAll()] ran. *)
Definition done (this : nat) (st : Threads) : Threads * bool :=
  let e := extant st ∖ {[ this ]} in
  ({| blockNew := blockNew st; extant := e |}, bool_decide (e = ∅)).

Inductive Event := Constructed (this : nat) | Done (this : nat).

Definition step (st : Threads) (ev : Event) : Threads :=
  match ev with
  | Constructed this => fst (construct this st)
  | Done this => fst (done this st)
  end.

Definition run (evs : list Event) (st : Threads) : Threads := fold_left step evs st.



End UtilMore.

(** ** More of [src/App.cpp]: the registry of tests and benches, the
    announced ports *)

Module AppMore.
Import Qt.

(** [App::registerTestBenchCommon]: [started] tells whether the global
    instance exists; a hook is a number. The map is left as it is after the
    start and for a name it already holds. *)
Definition registerTestBenchCommon (fname brief : QString) (started : bool)
           (m : gmap string nat) (name : QString) (func : nat)
  : gmap string nat * list App.Msg :=
  if started then
    (m, [(Util.Critical,
          message (shl_cstr dquote (shl_QString name (shl_cstr (" " +:+ dquote)
                  (shl_cstr brief (shl_cstr " Ignoring request to register "
                  (shl_cstr " cannot be called after the app has already started!"
                  (shl_cstr fname fresh)))))))) ])
  else
    match m !! name with
    | Some _ =>
        (m, [(Util.Critical,
              message (shl_cstr dquote (shl_QString name (shl_cstr (" " +:+ dquote)
                      (shl_cstr brief (shl_cstr ": ignoring duplicate "
                      (shl_cstr fname fresh)))))) )])
    | None => (<[ name := func ]> m, [])
    end.

(** [App::registerTest]. *)
Definition registerTest (started : bool) (m : gmap string nat) (name : QString) (func : nat)
  : gmap string nat * list App.Msg :=
  registerTestBenchCommon "registerTest" "test" started m name func.

(** [App::registerBench]. *)
Definition registerBench (started : bool) (m : gmap string nat) (name : QString) (func : nat)
  : gmap string nat * list App.Msg :=
  registerTestBenchCommon "registerBench" "bench" started m name func.

(** A run of registrations, in order. *)
Definition registerAll (started : bool) (regs : list (QString * nat)) (m : gmap string nat)
  : gmap string nat :=
  fold_left (fun m r => fst (registerTest started m (fst r) (snd r))) regs m.

(** The announced port of a transport, lines 549 to 585 and 652 to 683 of
    [parseArgs]: it starts as the port of the first listener of the kind,
    and a key of the file ([public_tcp_port] and the like), converted by
    [ConfigFile::intValue] to [val] with the flag [ok], resets it when
    [val] is 0 and sets it otherwise. *)
Definition firstPort (ifaces : list Options.Interface) (current : option Z) : option Z :=
  match ifaces with
  | i :: _ => Some (snd i)
  | [] => current
  end.

Definition UINT16_MAX : Z := 65535.

Definition publicPort (key : QString) (conv : option (Z * bool)) (current : option Z)
  : App.M (option Z) :=
  match conv with
  | None => App.ret current                     (* the file has no such key *)
  | Some (val, ok) =>
      if negb ok || (val <? 0) || (UINT16_MAX <? val)
      then App.throw (App.BadArgs (key +:+ " parse error: not an integer from 0 to 65535"))
      else if val =? 0 then App.ret None else App.ret (Some val)
  end.

(** A request for [/debug] with the query string [q] and nothing in the
    response yet. *)
Definition request (q : QString) : App.Request :=
  {| App.queryString := q;
     App.response := {| App.contentType := EmptyString; App.data := EmptyString |} |}.

(** An application object that holds the options [o]. *)
Definition appWith (o : Options.Options) : Util.App :=
  {| Util.options := o; Util.logger := None; Util.thread := 0%nat |}.

(** [QCommandLineParser::process], which [parseArgs] calls before
    anything else (line 363), is Qt's. It leaves the process with exit
    code 1 when the command line does not parse: an option that was not
    added, an option without the value it takes, a value for an option
    that takes none. Otherwise it leaves with exit code 0, after printing
    the version or the help, when [--version], [--help] or [--help-all] is
    set; Qt adds [?] to the names of the help option on Windows, taken
    here as the platforms where [Q_OS_UNIX] is not defined. What it prints
    does not go through the message handler. *)
Definition builtinHelpName (env : App.Env) (name : QString) : bool :=
  String.eqb name "help-all" || (negb (App.isUnix env) && String.eqb name "?").

Definition parseError (env : App.Env) (p : CommandLine.Parser) : bool :=
  existsb (fun nv : QString * option QString =>
             match CommandLine.lookup (CommandLine.table p) (fst nv) with
             | None => negb (builtinHelpName env (fst nv))
             | Some o => Bool.eqb (isEmpty (CommandLine.valueName o)) (App.isSomeb (snd nv))
             end)
          (CommandLine.found p).

Definition helpOrVersion (env : App.Env) (p : CommandLine.Parser) : bool :=
  CommandLine.isSet p "version" || CommandLine.isSet p "help"
  || existsb (builtinHelpName env) (CommandLine.optionNames p).

(** The exit code, or [None] when [process] returns. *)
Definition process (env : App.Env) (p : CommandLine.Parser) : option Z :=
  if parseError env p then Some 1
  else if helpOrVersion env p then Some 0
  else None.

(** The constructor [App::App] from the command line as it was typed:
    [process] first, then what [construct] describes. *)
Definition App_ctor (env : App.Env) (fnd : list (QString * option QString))
           (pos : list QString) : list App.Msg * App.Boot :=
  match process env (App.mkParser env fnd pos) with
  | Some c => ([], App.Exited c)
  | None => App.construct env fnd pos
  end.

(** The code ends in [std::exit]. *)
Definition exits {A} (m : App.M A) : Prop := exists l c, m = (l, App.Exit c).

(** The configuration file as [parseArgs] reads the options from it: the
    file it opened, after the warning loop has removed the keys that the
    command line sets. *)
Definition resolvedConf (env : App.Env) (p : CommandLine.Parser)
  : option ConfigFile.ConfigFile :=
  match App.openConf env p with
  | (_, App.Ok conf0) =>
      match App.warnDupes (App.allOptions env) p conf0 with
      | (_, App.Ok conf) => Some conf
      | _ => None
      end
  | _ => None
  end.

(** The sample environment with [RPCUSER] and [RPCPASSWORD] set. *)
Definition sample_env_rpc : App.Env :=
  {| App.toDouble := App.toDouble App.sample_env;
     App.toUShort := App.toUShort App.sample_env;
     App.toInt := App.toInt App.sample_env;
     App.number_double := App.number_double App.sample_env;
     App.hostAddress := App.hostAddress App.sample_env;
     App.getenv := fun n =>
       if String.eqb n App.RPCUSER then Some "alice"
       else if String.eqb n App.RPCPASSWORD then Some "secret" else None;
     App.supportsSsl := App.supportsSsl App.sample_env;
     App.supportedEllipticCurves := App.supportedEllipticCurves App.sample_env;
     App.isDebugBuild := App.isDebugBuild App.sample_env;
     App.defaultPollTimeSecs := App.defaultPollTimeSecs App.sample_env;
     App.registeredTests := App.registeredTests App.sample_env;
     App.registeredBenches := App.registeredBenches App.sample_env;
     App.confOpen := App.confOpen App.sample_env;
     App.fileInfo := App.fileInfo App.sample_env;
     App.canonicalFilePath := App.canonicalFilePath App.sample_env;
     App.mkpath := App.mkpath App.sample_env;
     App.fileExists := App.fileExists App.sample_env;
     App.fileOpenError := App.fileOpenError App.sample_env;
     App.readCert := App.readCert App.sample_env;
     App.readKey := App.readKey App.sample_env;
     App.isUnix := App.isUnix App.sample_env;
     App.defaultLogTimestampMode := App.defaultLogTimestampMode App.sample_env;
     App.defaultTlsDisallowDeprecated := App.defaultTlsDisallowDeprecated App.sample_env;
     App.defaultDumpScriptHashes := App.defaultDumpScriptHashes App.sample_env;
     App.lateOptions := App.lateOptions App.sample_env;
     App.lateOptionsAfterTor := App.lateOptionsAfterTor App.sample_env |}.

(** The values of a listener kind as [parseArgs] reads them. *)
Definition listenerTexts (env : App.Env) (p : CommandLine.Parser) (long short : QString)
  : list QString :=
  match resolvedConf env p with
  | Some conf => App.listenerValues p conf long short
  | None => []
  end.

End AppMore.

(** * Theorems *)

Import Qt.

(** ** Strings as lists of characters *)

Section StringLists.

Lemma append_cons (c : ascii) (a b : QString) :
  String c a +:+ b = String c (a +:+ b).
Proof. reflexivity. Qed.

Lemma append_nil_l (a : QString) : EmptyString +:+ a = a.
Proof. reflexivity. Qed.

Lemma s2l_app (a b : QString) : s2l (a +:+ b) = (s2l a ++ s2l b)%list.
Proof.
  unfold s2l. induction a as [|c a IH]; [reflexivity|].
  rewrite append_cons. cbn. f_equal. exact IH.
Qed.

Lemma l2s_app (a b : list ascii) : l2s (a ++ b)%list = l2s a +:+ l2s b.
Proof.
  unfold l2s. induction a as [|c a IH]; [reflexivity|].
  cbn. rewrite append_cons. f_equal. exact IH.
Qed.

Lemma l2s_s2l (s : QString) : l2s (s2l s) = s.
Proof. apply string_of_list_ascii_of_string. Qed.

Lemma s2l_l2s (l : list ascii) : s2l (l2s l) = l.
Proof. apply list_ascii_of_string_of_list_ascii. Qed.

Lemma s2l_length (s : QString) : length (s2l s) = String.length s.
Proof.
  unfold s2l. induction s as [|c s IH]; cbn; [reflexivity | f_equal; exact IH].
Qed.

Lemma s2l_inj (a b : QString) : s2l a = s2l b -> a = b.
Proof. intros H. rewrite <- (l2s_s2l a), <- (l2s_s2l b). f_equal. exact H. Qed.

Lemma append_assoc (a b c : QString) : (a +:+ b) +:+ c = a +:+ (b +:+ c).
Proof.
  induction a as [|x a IH]; [reflexivity|].
  rewrite !append_cons. f_equal. exact IH.
Qed.

Lemma append_nil_r (a : QString) : a +:+ EmptyString = a.
Proof.
  induction a as [|x a IH]; [reflexivity|].
  rewrite append_cons. f_equal. exact IH.
Qed.

Lemma last_app_ne {A} (l1 l2 : list A) (d : A) :
  l2 <> [] -> List.last (l1 ++ l2)%list d = List.last l2 d.
Proof.
  intros Hne. induction l1 as [|x l1 IH]; [reflexivity|].
  simpl. destruct (l1 ++ l2)%list eqn:E; [|exact IH].
  destruct l1; [contradiction | discriminate].
Qed.

Lemma last_map_Some (l : list ascii) (c : ascii) :
  List.last (map Some (l ++ [c])%list) None = Some c.
Proof.
  induction l as [|x l IH]; simpl; [reflexivity|].
  destruct (map Some (l ++ [c])%list) eqn:E; [|exact IH].
  destruct l; discriminate.
Qed.

Lemma last_map_Some_inv (l : list ascii) (c : ascii) :
  List.last (map Some l) None = Some c -> exists p, l = (p ++ [c])%list.
Proof.
  induction l as [|x l IH]; simpl; [discriminate|].
  destruct l as [|y l].
  - simpl. intros [= ->]. exists []. reflexivity.
  - intros H. destruct (IH H) as [p Hp]. exists (x :: p). simpl. f_equal. exact Hp.
Qed.

(** [endsWith(QChar)] says that the string is some prefix followed by the
    character. *)
Lemma endsWith_char_spec (c : ascii) (s : QString) :
  endsWith_char c s = true <-> exists p, s = p +:+ String c EmptyString.
Proof.
  unfold endsWith_char. split.
  - destruct (List.last (map Some (s2l s)) None) as [c'|] eqn:E; [|discriminate].
    intros H. apply Ascii.eqb_eq in H. subst c'.
    apply last_map_Some_inv in E. destruct E as [p Hp].
    exists (l2s p). apply s2l_inj. rewrite s2l_app, s2l_l2s. exact Hp.
  - intros [p ->]. rewrite s2l_app. simpl. rewrite last_map_Some.
    apply Ascii.eqb_refl.
Qed.

(** The last character of the two rightmost characters is the last
    character of the string. *)
Lemma endsWith_char_right (c : ascii) (n : nat) (s : QString) :
  (0 < n)%nat -> endsWith_char c (right n s) = endsWith_char c s.
Proof.
  intros Hn. unfold endsWith_char, right. rewrite s2l_l2s, <- s2l_length.
  generalize (s2l s) as l. intros l.
  destruct (decide (length l <= n)%nat) as [Hle|Hgt].
  - replace (length l - n)%nat with 0%nat by lia. reflexivity.
  - rewrite <- (take_drop (length l - n)%nat l) at 3.
    rewrite map_app.
    assert (Hne : map Some (drop (length l - n)%nat l) <> []).
    { intros E. apply (f_equal (@length _)) in E. rewrite length_map, length_drop in E.
      simpl in E. lia. }
    rewrite last_app_ne by exact Hne. reflexivity.
Qed.

Lemma right_app (p q : QString) :
  right (String.length q) (p +:+ q) = q.
Proof.
  unfold right. rewrite <- !s2l_length, !s2l_app, length_app.
  replace (length (s2l p) + length (s2l q) - length (s2l q))%nat with (length (s2l p))
    by lia.
  rewrite drop_app_length. apply l2s_s2l.
Qed.

Lemma right_suffix (n : nat) (s : QString) :
  exists p, s = p +:+ right n s.
Proof.
  exists (l2s (take (String.length s - n)%nat (s2l s))).
  unfold right. rewrite <- l2s_app, take_drop, l2s_s2l. reflexivity.
Qed.

Lemma right_length (n : nat) (s : QString) :
  String.length (right n s) = Nat.min n (String.length s).
Proof.
  unfold right. rewrite <- (s2l_length (l2s _)), s2l_l2s, length_drop, s2l_length. lia.
Qed.

Lemma truncate_app (p q : QString) :
  truncate (qlength (p +:+ q) - qlength q) (p +:+ q) = p.
Proof.
  unfold truncate, qlength. rewrite s2l_app.
  rewrite <- !s2l_length, s2l_app, length_app.
  replace (Z.to_nat _) with (length (s2l p)) by lia.
  rewrite take_app_length. apply l2s_s2l.
Qed.

End StringLists.

(** ** Pluralisation *)

Section Pluralisation.
Import Pluralize2.

Lemma qAbs_one (n : Z) :
  INT_MIN <= n <= INT_MAX -> (qAbs n =? 1) = (Z.abs n =? 1).
Proof.
  unfold INT_MIN, INT_MAX, qAbs, wrap_int. intros Hn.
  destruct (Z.leb_spec 0 n) as [Hpos|Hneg].
  - rewrite Z.abs_eq by lia. reflexivity.
  - rewrite Z.abs_neq by lia.
    destruct (Z.eq_dec n (- 2 ^ 31)) as [->|Hne]; [reflexivity|].
    rewrite Z.mod_small by lia.
    replace (- n + 2 ^ 31 - 2 ^ 31) with (- n) by lia. reflexivity.
Qed.

Lemma right2_sh (w : QString) :
  String.eqb (right 2 w) "sh" = true <-> exists p, w = p +:+ "sh".
Proof.
  split.
  - intros H. apply String.eqb_eq in H. destruct (right_suffix 2 w) as [p Hp].
    exists p. rewrite <- H. exact Hp.
  - intros [p ->]. apply String.eqb_eq. exact (right_app p "sh").
Qed.

Lemma append_last_inj (p q : QString) (a b : ascii) :
  p +:+ String a EmptyString = q +:+ String b EmptyString -> p = q /\ a = b.
Proof.
  intros H. apply (f_equal s2l) in H. rewrite !s2l_app in H. cbn in H.
  apply app_inj_tail in H. destruct H as [H1 H2]. split; [apply s2l_inj; exact H1 | exact H2].
Qed.

Lemma ends_in_char (c : ascii) (w : QString) :
  endsWith_char c (right 2 w) = true <-> ends_in (String c EmptyString) w.
Proof. rewrite endsWith_char_right by lia. apply endsWith_char_spec. Qed.

Lemma not_true_false (b : bool) : ~ b = true -> b = false.
Proof. destruct b; [intros H; exfalso; apply H; reflexivity | reflexivity]. Qed.

Lemma y_not_s (p : QString) : endsWith_char "s" (right 2 (p +:+ "y")) = false.
Proof.
  apply not_true_false. rewrite ends_in_char. intros [q Hq].
  apply append_last_inj in Hq. destruct Hq as [_ Hq]. discriminate Hq.
Qed.

Lemma y_not_sh (p : QString) : String.eqb (right 2 (p +:+ "y")) "sh" = false.
Proof.
  apply not_true_false. rewrite right2_sh. intros [q Hq].
  change (q +:+ "sh") with (q +:+ ("s" +:+ "h")) in Hq.
  rewrite <- append_assoc in Hq.
  apply append_last_inj in Hq. destruct Hq as [_ Hq]. discriminate Hq.
Qed.

(** C9. For an [int] count [n] and a word [w], the operator writes the
    count, a space and then: [w] itself when [|n| = 1] (followed by the
    space the stream inserts after each item); otherwise [w] with [es]
    appended when [w] ends in [s] or in [sh], [w] with its final [y]
    replaced by [ies] when [w] ends in [y], and [w] with [s] appended in
    every other case. *)
Theorem pluralize2_rule (n : Z) (w : QString) :
  INT_MIN <= n <= INT_MAX ->
  (Z.abs n = 1 -> printed n w = number n +:+ " " +:+ w +:+ " ") /\
  (Z.abs n <> 1 ->
     (ends_in "s" w \/ ends_in "sh" w ->
        printed n w = number n +:+ " " +:+ w +:+ "es") /\
     (forall p, w = p +:+ "y" ->
        printed n w = number n +:+ " " +:+ p +:+ "ies") /\
     (~ ends_in "s" w -> ~ ends_in "sh" w -> ~ ends_in "y" w ->
        printed n w = number n +:+ " " +:+ w +:+ "s")).
Proof.
  intros Hn. pose proof (qAbs_one n Hn) as Habs.
  unfold printed, shl_Pluralize2. cbn [_n _wordIn]. rewrite Habs.
  split.
  - intros H1. apply Z.eqb_eq in H1. rewrite H1. cbn.
    rewrite append_nil_l, !append_assoc. reflexivity.
  - intros H1. apply Z.eqb_neq in H1. rewrite H1. cbn [negb].
    repeat split.
    + intros Hs.
      assert (Hc : endsWith_char "s" (right 2 w) || String.eqb (right 2 w) "sh" = true).
      { apply orb_true_iff. destruct Hs as [Hs|Hs];
          [left; apply ends_in_char; exact Hs | right; apply right2_sh; exact Hs]. }
      rewrite Hc. cbn. rewrite append_nil_l, !append_assoc. reflexivity.
    + intros p ->. rewrite y_not_s, y_not_sh. cbn [orb].
      assert (Hy : endsWith_char "y" (right 2 (p +:+ "y")) = true).
      { apply ends_in_char. exists p. reflexivity. }
      rewrite Hy.
      pose proof (truncate_app p "y") as Ht.
      change (qlength "y") with 1 in Ht. rewrite Ht. cbn.
      rewrite append_nil_l, !append_assoc. reflexivity.
    + intros Hs Hsh Hy.
      rewrite (not_true_false _ (fun H => Hs (proj1 (ends_in_char _ _) H))).
      rewrite (not_true_false _ (fun H => Hsh (proj1 (right2_sh _) H))).
      rewrite (not_true_false _ (fun H => Hy (proj1 (ends_in_char _ _) H))).
      cbn. rewrite append_nil_l, !append_assoc. reflexivity.
Qed.

(** The rule at the count 3 and the word [entry]. *)
Lemma pluralize2_rule_witness :
  (INT_MIN <= 3 <= INT_MAX) /\ printed 3 "entry" = "3 entries".
Proof.
  split; [unfold INT_MIN, INT_MAX; lia|].
  destruct (pluralize2_rule 3 "entry") as [_ H]; [unfold INT_MIN, INT_MAX; lia|].
  destruct H as [_ [H _]]; [lia|].
  exact (H "entr" eq_refl).
Defined.

Example printed_entries : printed 2 "entry" = "2 entries".
Proof. reflexivity. Qed.

Example printed_hashes : printed (-3) "hash" = "-3 hashes".
Proof. reflexivity. Qed.

Example printed_one : printed (-1) "entry" = "-1 entry ".
Proof. reflexivity. Qed.

Example printed_workers : printed 0 "worker" = "0 workers".
Proof. reflexivity. Qed.

End Pluralisation.

(** ** Trace output needs debug output *)

Section Logging.
Import Util.

Lemma Log_dtor_silent ourApp th tnow (l : Log) :
  doprt l = false -> Log_dtor ourApp th tnow l = [].
Proof. intros H. unfold Log_dtor. rewrite H. reflexivity. Qed.

Lemma Trace_dtor_doprt ourApp (l : Log) :
  doprt (Trace_dtor ourApp l) = Trace_isEnabled ourApp.
Proof. unfold Trace_dtor. destruct (Trace_isEnabled ourApp); reflexivity. Qed.

(** C10. [Trace::isEnabled()] is true only for an application whose
    options have both [verboseTrace] and [verboseDebug] set, hence only
    when [Debug::isEnabled()] is true; and while [Debug::isEnabled()] is
    false, destroying a [Trace] object emits no record. *)
Theorem trace_only_with_debug (ourApp : option App) :
  (Trace_isEnabled ourApp = true ->
     Debug_isEnabled ourApp = true
     /\ exists a, ourApp = Some a
                  /\ Options.verboseTrace (options a) = true
                  /\ Options.verboseDebug (options a) = true)
  /\ (Debug_isEnabled ourApp = false ->
        forall th tnow l, Trace_emit ourApp th tnow l = []).
Proof.
  split.
  - destruct ourApp as [a|]; cbn; [|discriminate].
    intros H. apply andb_true_iff in H. destruct H as [Ht Hd].
    split; [exact Hd|]. exists a. repeat split; assumption.
  - intros Hd th tnow l. unfold Trace_emit. apply Log_dtor_silent.
    rewrite Trace_dtor_doprt. destruct ourApp as [a|]; cbn in *; [|reflexivity].
    rewrite Hd. apply andb_false_r.
Qed.

(** An application with [-d -d] in force: both flags on. *)
Lemma trace_only_with_debug_witness :
  Trace_isEnabled (Some {| options := App.on_setVerboseTrace true (App.initialOptions App.sample_env);
                           logger := None; thread := 0%nat |}) = true
  /\ Debug_isEnabled (Some {| options := App.on_setVerboseTrace true (App.initialOptions App.sample_env);
                              logger := None; thread := 0%nat |}) = true.
Proof.
  split; [reflexivity|].
  apply (proj1 (trace_only_with_debug _)). reflexivity.
Defined.

End Logging.

(** ** The signal handler *)

Section Signals.
Import App.

(** C4. Whatever signals are delivered, the handler initiates the exit
    (with the signal's value) on the first delivery, prints the duplicate
    message and does nothing else on the second, third and fourth, and
    aborts on the fifth, after which the process is gone; so in every run
    with at least one delivery the exit is initiated exactly once. *)
Theorem gotsig_sequence (sigs : list Z) :
  deliver 0 sigs = take 5 (imap Spec.signal_action sigs)
  /\ (sigs <> [] -> length (filter (fun a => Spec.is_exit a = true) (deliver 0 sigs)) = 1%nat).
Proof.
  destruct sigs as [|s1 [|s2 [|s3 [|s4 [|s5 rest]]]]];
    (split; [reflexivity | intros H; try reflexivity; contradiction]).
Qed.

(** Two interrupts in a row: one exit, one duplicate message. *)
Lemma gotsig_sequence_witness :
  [2; 2] <> []
  /\ length (filter (fun a => Spec.is_exit a = true) (deliver 0 [2; 2])) = 1%nat.
Proof.
  split; [discriminate|].
  apply (proj2 (gotsig_sequence [2; 2])). discriminate.
Defined.

End Signals.

(** ** The wait for the worker pool at shutdown *)

Section PoolDrain.
Import App.

(** The wait is given 5000 ms, and when it times out one warning is
    logged; the count it prints is the one read before the wait began. *)
Lemma cleanup_warns_on_timeout (tp : ThreadPool) (elapsed : Z) :
  remainingAfter tp 5000 <> 0 ->
  let '(log, tp') := cleanup_WaitForThreadPoolWorkers tp elapsed in
  In (Util.LWarning, still_active_msg elapsed (extantJobs tp)) log
  /\ extantJobs tp' = remainingAfter tp 5000.
Proof.
  intros H. unfold cleanup_WaitForThreadPoolWorkers, shutdownWaitForJobs, timeout.
  apply Z.eqb_neq in H. rewrite H. cbn [negb].
  split; [|reflexivity].
  apply in_or_app. right. left. reflexivity.
Qed.

(** C8, evaluated on a pool with two extant jobs of which one finishes
    during the wait: the wait times out with one job left, and the warning
    says that two workers are still active. *)
Theorem cleanup_reports_count_read_before_wait :
  fst (cleanup_WaitForThreadPoolWorkers pool_two_one 5000)
  = [(Util.Info, "Waiting for extant thread pool workers ...");
     (Util.LWarning,
      "After 5 seconds, 2 thread pool workers are still active. App may abort with an error.")]
  /\ extantJobs (snd (cleanup_WaitForThreadPoolWorkers pool_two_one 5000)) = 1.
Proof. split; reflexivity. Qed.

End PoolDrain.

(** ** The synchronous cross-thread call *)

Section CrossThread.
Import Util.

(** C6, as amended. For a call with a job: it returns true exactly when
    the job has run to completion by the time the call returns; on the
    target's own thread the job runs inline and the call returns true;
    from another thread, with the target's thread not running, the call
    returns false and the job never runs; from another thread, with the
    target's thread running, the call returns true exactly when the queued
    job finishes before the timeout. For a call with an empty job: it
    returns true at once and nothing runs. *)
Theorem LambdaOnObject_outcome (c : Call) :
  (forall job, lambda c = Some job ->
     (ret (LambdaOnObject c) = true <-> completed (LambdaOnObject c) = [job])
     /\ (currentThread c = objThread c ->
           LambdaOnObject c = {| ret := true; completed := [job]; late := [] |})
     /\ (currentThread c <> objThread c -> objThreadRunning c = false ->
           LambdaOnObject c = {| ret := false; completed := []; late := [] |})
     /\ (currentThread c <> objThread c -> objThreadRunning c = true ->
           (ret (LambdaOnObject c) = true <->
            exists start finish,
              delivery c = Runs start finish
              /\ start < timeout_ms c /\ finish < timeout_ms c)))
  /\ (lambda c = None ->
      LambdaOnObject c = {| ret := true; completed := []; late := [] |}).
Proof.
  split; [|intros H; unfold LambdaOnObject; rewrite H; reflexivity].
  intros job Hj. unfold LambdaOnObject. rewrite Hj.
  destruct (Nat.eqb_spec (currentThread c) (objThread c)) as [Heq|Hne].
  - repeat split; try reflexivity; try contradiction.
  - destruct (objThreadRunning c) eqn:Hrun; cbn [negb].
    + unfold queued_call. destruct (delivery c) as [|start finish] eqn:Hd.
      * repeat split; try discriminate; try contradiction.
        intros (s & f & Hsf & _); discriminate.
      * destruct (Z.leb_spec (timeout_ms c) start) as [Hs|Hs];
          [|destruct (Z.ltb_spec finish (timeout_ms c)) as [Hf|Hf]]; cbn.
        -- repeat split; try discriminate; try contradiction.
           intros (s & f & [= <- <-] & Hlt & _). lia.
        -- repeat split; try reflexivity; try discriminate; try contradiction.
           intros _. exists start, finish. repeat split; [exact Hs | exact Hf].
        -- repeat split; try discriminate; try contradiction.
           intros (s & f & [= <- <-] & _ & Hlt). lia.
    + repeat split; try discriminate; try contradiction.
Qed.

(** A job submitted from thread 1 to an object of thread 2 whose loop
    runs it between 3 ms and 7 ms, with a timeout of 50 ms. *)
Lemma LambdaOnObject_outcome_witness :
  ret (LambdaOnObject {| lambda := Some 9%nat; currentThread := 1%nat; objThread := 2%nat;
                          objThreadRunning := true; timeout_ms := 50;
                          delivery := Runs 3 7 |}) = true.
Proof.
  destruct (LambdaOnObject_outcome
    {| lambda := Some 9%nat; currentThread := 1%nat; objThread := 2%nat;
       objThreadRunning := true; timeout_ms := 50; delivery := Runs 3 7 |}) as [H _].
  destruct (H 9%nat eq_refl) as (_ & _ & _ & H').
  apply H'; [discriminate | reflexivity |].
  exists 3, 7. repeat split; reflexivity.
Defined.

(** C6 as stated fails: an empty job sent from thread 1 to an object
    whose thread 2 is not running returns true, although the target's
    thread is not running and no job has run. *)
Lemma LambdaOnObject_null_returns_true :
  let c := {| lambda := None; currentThread := 1%nat; objThread := 2%nat;
              objThreadRunning := false; timeout_ms := 50; delivery := Dropped |} in
  currentThread c <> objThread c
  /\ objThreadRunning c = false
  /\ ret (LambdaOnObject c) = true
  /\ completed (LambdaOnObject c) = [].
Proof. cbn. repeat split. discriminate. Qed.

End CrossThread.

(** ** The millisecond clock *)

Section Clocks.
Import Util.

(** C5, as amended. On a steady clock two consecutive calls of the
    millisecond clock return values of which the second is not smaller
    than the first. *)
Theorem getTime_steady_non_decreasing (c : Clock) (k : nat) :
  clock_ok c -> isClockSteady c = true ->
  getTime c k <= getTime c (S k).
Proof.
  intros (Hnum & Hden & Hmono) Hsteady. unfold getTime, duration_cast.
  apply Z.quot_le_mono; [exact Hden|].
  apply Z.mul_le_mono_nonneg_r; [lia|].
  pose proof (Hmono Hsteady k (S k) (Nat.le_succ_diag_r k)). lia.
Qed.

Lemma clock_us_ok : clock_ok clock_us.
Proof.
  unfold clock_ok, clock_us. cbn. repeat split; try lia.
Qed.

Lemma getTime_steady_non_decreasing_witness :
  getTime clock_us 1 <= getTime clock_us 2.
Proof.
  exact (getTime_steady_non_decreasing clock_us 1 clock_us_ok eq_refl).
Defined.

(** C5 as stated fails: on a steady nanosecond clock read every
    microsecond the first two calls of the millisecond clock both return
    0, so the second is not strictly greater. *)
Lemma getTime_steady_not_strict :
  clock_ok clock_us
  /\ isClockSteady clock_us = true
  /\ getTime clock_us 1 = 0 /\ getTime clock_us 2 = 0.
Proof. split; [exact clock_us_ok|]. repeat split; reflexivity. Qed.

(** On a clock that is not steady and is set back between two readings
    the millisecond clock decreases. *)
Lemma getTime_unsteady_decreases :
  clock_ok clock_set_back
  /\ getTime clock_set_back 1 = 5000 /\ getTime clock_set_back 2 = 0.
Proof.
  repeat split; try reflexivity. cbn. discriminate.
Qed.

End Clocks.

(** ** The stats HTTP server *)

Section StatsServer.
Import App.





(** [ParseParams] keeps the pairs that split in two at [=]; a later pair
    overrides an earlier one of the same name. *)
Example ParseParams_example :
  ParseParams {| queryString := "a=1&b&c=2=3&a=4&d=";
                 response := {| contentType := EmptyString; data := EmptyString |} |}
  = <["d" := EmptyString]> (<["a" := "4"]> ∅).
Proof. vm_compute. reflexivity. Qed.

End StatsServer.

(** ** Option resolution *)

Section Resolution.
Import App.
Import CommandLine.

(** *** The logging and throwing monad *)

Lemma bind_Ok_inv {A B} (m : M A) (k : A -> M B) (l : list Msg) (b : B) :
  bind m k = (l, Ok b) ->
  exists l1 a l2, m = (l1, Ok a) /\ k a = (l2, Ok b) /\ l = (l1 ++ l2)%list.
Proof.
  unfold bind. destruct m as [l1 [a|e|c]]; [|discriminate..].
  destruct (k a) as [l2 r] eqn:E. intros [= <- ->].
  exists l1, a, l2. repeat split; [exact E].
Qed.

Lemma bind_Ok {A B} (m : M A) (k : A -> M B) (l1 : list Msg) (a : A) :
  m = (l1, Ok a) -> bind m k = ((l1 ++ fst (k a))%list, snd (k a)).
Proof. intros ->. unfold bind. destruct (k a). reflexivity. Qed.

Lemma bind_Throw {A B} (m : M A) (k : A -> M B) (l1 : list Msg) (e : Exception) :
  m = (l1, Throw e) -> bind m k = (l1, Throw e).
Proof. intros ->. reflexivity. Qed.


Ltac bind_inv H :=
  let l1 := fresh "l" in
  let a := fresh "a" in
  let l2 := fresh "l" in
  let H1 := fresh "Hst" in
  let H3 := fresh "Hlog" in
  apply bind_Ok_inv in H; destruct H as (l1 & a & l2 & H1 & H & H3); cbv beta in H.

(** What [parseArgs] went through when it reached the certificates. *)
Lemma parseArgs_listeners_Ok_inv (env : Env) (p : Parser) (l : list Msg) (e : Early) :
  parseArgs_listeners env p = (l, Ok e) ->
  exists conf0 l0 l1 l2,
    openConf env p = (l0, Ok conf0)
    /\ warnDupes (allOptions env) p conf0 = (l1, Ok (e_conf e))
    /\ parsePollTime env p (e_conf e) = (l2, Ok (e_pollTimeSecs e))
    /\ flags env p (e_conf e) (initialOptions env)
       = (e_verboseDebug e, e_verboseTrace e, e_syslogMode e, e_doSlowDbChecks e).
Proof.
  intros H. unfold parseArgs_listeners in H.
  bind_inv H. bind_inv H. bind_inv H.
  destruct (flags env p a1 (initialOptions env)) as [[[dbg trc] sys] chk] eqn:Hflags.
  bind_inv H. bind_inv H. bind_inv H. bind_inv H. bind_inv H.
  bind_inv H. bind_inv H. bind_inv H. bind_inv H.
  injection H as _ <-. cbn.
  exists a0, l2, l4, l6. repeat split; assumption.
Qed.

(** What a successful run of [parseArgs] went through. *)
Lemma parseArgs_Ok_inv (env : Env) fnd pos (l : list Msg) (o : Options.Options) :
  parseArgs env fnd pos = (l, Ok o) ->
  let p := mkParser env fnd pos in
  exists e l0 l1,
    parseArgs_listeners env p = (l0, Ok e)
    /\ parseCerts env p (e_conf e) (hasSSL e) (hasWSS e)
       = (l1, Ok (Options.certInfo o, Options.wssCertInfo o))
    /\ Options.pollTimeSecs o = e_pollTimeSecs e
    /\ Options.verboseDebug o = e_verboseDebug e
    /\ Options.verboseTrace o = e_verboseTrace e
    /\ Options.sslInterfaces o = e_sslInterfaces e
    /\ Options.wssInterfaces o = e_wssInterfaces e.
Proof.
  intros H p. unfold parseArgs in H. fold p in H.
  bind_inv H. bind_inv H. bind_inv H. bind_inv H.
  match type of H with match ?x with _ => _ end = _ => destruct x; [discriminate|] end.
  bind_inv H.
  match type of H with match ?x with _ => _ end = _ => destruct x; [discriminate|] end.
  bind_inv H. injection H as _ <-. cbn.
  destruct a0 as [ci wci].
  exists a, l0, l2. repeat split; assumption.
Qed.

(** Whatever [parseArgs] throws, the constructor logs its message at the
    critical level and leaves with exit code 1. *)
Lemma construct_Throw (env : Env) fnd pos (l : list Msg) (e : Exception) :
  parseArgs env fnd pos = (l, Throw e) ->
  construct env fnd pos
  = ((l ++ [(Util.Critical, what e); (Util.Info, "Use the -h option to show help.")])%list,
     Exited 1).
Proof. intros H. unfold construct. rewrite H. reflexivity. Qed.

Lemma construct_Ok (env : Env) fnd pos (l : list Msg) (o : Options.Options) :
  construct env fnd pos = (l, Constructed o) -> parseArgs env fnd pos = (l, Ok o).
Proof.
  unfold construct. destruct (parseArgs env fnd pos) as [l' [o'|e|c]];
    intros [= <- <-]; reflexivity.
Qed.

(** *** The poll time *)

Lemma compare_cont_antisym (m n : positive) :
  Pos.compare_cont Eq n m = CompOpp (Pos.compare_cont Eq m n).
Proof. symmetry. exact (Pos.compare_cont_antisym m n Eq). Qed.

Lemma SFcompare_antisym (x y : spec_float) :
  SFcompare y x = option_map CompOpp (SFcompare x y).
Proof.
  destruct x as [sx|sx| |sx mx ex], y as [sy|sy| |sy my ey]; cbn;
    try reflexivity; try (destruct sx; reflexivity); try (destruct sy; reflexivity);
    try (destruct sx, sy; reflexivity).
  destruct sx, sy; cbn; try reflexivity;
    rewrite (Z.compare_antisym ex ey); destruct (ex ?= ey); cbn; try reflexivity;
    rewrite (compare_cont_antisym mx my);
    destruct (Pos.compare_cont Eq mx my); reflexivity.
Qed.

Lemma SFltb_false_leb (x y : spec_float) :
  x <> S754_nan -> y <> S754_nan -> SFltb x y = false -> SFleb y x = true.
Proof.
  unfold SFltb, SFleb. rewrite (SFcompare_antisym x y).
  destruct (SFcompare x y) as [[| |]|] eqn:E; cbn; try reflexivity; try discriminate.
  intros Hx Hy _. destruct x, y; try contradiction; cbn in E; discriminate.
Qed.

(** The check lets through exactly the conversions that succeeded with a
    value inside the range, or with a NaN. *)
Lemma polltime_rejected_false (d : spec_float) (ok : bool) :
  polltime_rejected d ok = false <->
  ok = true /\ (d = S754_nan \/ Spec.polltime_in_range d = true).
Proof.
  unfold polltime_rejected, Spec.polltime_in_range. split.
  - intros H. apply orb_false_iff in H. destruct H as [H Hhi].
    apply orb_false_iff in H. destruct H as [Hlo Hok].
    split; [destruct ok; [reflexivity | discriminate]|].
    destruct d as [s|s| |s m e]; [right|right|left; reflexivity|right];
      (apply andb_true_iff; split;
       [apply SFltb_false_leb | apply SFltb_false_leb]; try discriminate; assumption).
  - intros [-> [-> | H]]; [reflexivity|].
    apply andb_true_iff in H. destruct H as [Hlo Hhi].
    unfold SFltb. unfold SFleb in Hlo, Hhi.
    rewrite (SFcompare_antisym Options.minPollTimeSecs d).
    rewrite (SFcompare_antisym d Options.maxPollTimeSecs) in *.
    destruct (SFcompare Options.minPollTimeSecs d) as [[| |]|]; try discriminate;
    destruct (SFcompare d Options.maxPollTimeSecs) as [[| |]|]; try discriminate;
    reflexivity.
Qed.

Lemma parsePollTime_Ok (env : Env) (p : Parser) conf (l : list Msg) (d : spec_float) :
  parsePollTime env p conf = (l, Ok d) ->
  l = [] /\ toDouble env (ConfigFile.value conf "polltime" (value p "T")) = (d, true)
  /\ (d = S754_nan \/ Spec.polltime_in_range d = true).
Proof.
  unfold parsePollTime.
  destruct (toDouble env (ConfigFile.value conf "polltime" (value p "T"))) as [d' ok] eqn:E.
  destruct (polltime_rejected d' ok) eqn:R; [discriminate|].
  intros [= <- <-]. apply polltime_rejected_false in R. destruct R as [-> R].
  repeat split; [exact R].
Qed.

(** Every poll time that failed to convert, or converted to a value below
    0.5 or above 30, is refused with the message that names the range. *)
Lemma parsePollTime_Throw (env : Env) (p : Parser) conf (d : spec_float) (ok : bool) :
  toDouble env (ConfigFile.value conf "polltime" (value p "T")) = (d, ok) ->
  ok = false \/ SFltb d Options.minPollTimeSecs = true
  \/ SFltb Options.maxPollTimeSecs d = true ->
  parsePollTime env p conf = ([], Throw (BadArgs (polltime_msg env))).
Proof.
  intros E H. unfold parsePollTime. rewrite E.
  assert (R : polltime_rejected d ok = true).
  { unfold polltime_rejected. destruct H as [-> | [-> | ->]];
      rewrite ?orb_true_r; reflexivity. }
  rewrite R. reflexivity.
Qed.

(** A NaN that converted passes the check. *)
Lemma parsePollTime_nan (env : Env) (p : Parser) conf :
  toDouble env (ConfigFile.value conf "polltime" (value p "T")) = (S754_nan, true) ->
  parsePollTime env p conf = ([], Ok S754_nan).
Proof. intros E. unfold parsePollTime. rewrite E. reflexivity. Qed.

(** When resolution succeeds the poll time is inside the range, or it is
    a NaN. *)
Lemma parseArgs_polltime (env : Env) fnd pos (l : list Msg) (o : Options.Options) :
  parseArgs env fnd pos = (l, Ok o) ->
  Options.pollTimeSecs o = S754_nan
  \/ Spec.polltime_in_range (Options.pollTimeSecs o) = true.
Proof.
  intros H. apply parseArgs_Ok_inv in H.
  destruct H as (e & l0 & l1 & He & _ & -> & _).
  apply parseArgs_listeners_Ok_inv in He.
  destruct He as (conf0 & l2 & l3 & l4 & _ & _ & Hp & _).
  apply parsePollTime_Ok in Hp. tauto.
Qed.

(** A refused poll time ends the constructor with exit code 1, the
    message in the log, and no [Constructed] application: [startup], which
    opens the listeners, is never queued. *)
Lemma polltime_refused_exits (env : Env) fnd pos l0 l1 l2 conf0 conf (d : spec_float) (ok : bool) :
  let p := mkParser env fnd pos in
  testsAndBenches env p = (l0, Ok tt) ->
  openConf env p = (l1, Ok conf0) ->
  warnDupes (allOptions env) p conf0 = (l2, Ok conf) ->
  toDouble env (ConfigFile.value conf "polltime" (value p "T")) = (d, ok) ->
  ok = false \/ SFltb d Options.minPollTimeSecs = true
  \/ SFltb Options.maxPollTimeSecs d = true ->
  construct env fnd pos
  = ((l0 ++ l1 ++ l2 ++ [(Util.Critical, polltime_msg env);
                         (Util.Info, "Use the -h option to show help.")])%list,
     Exited 1).
Proof.
  intros p H0 H1 H2 E R.
  assert (H : parseArgs env fnd pos = ((l0 ++ l1 ++ l2)%list, Throw (BadArgs (polltime_msg env)))).
  { unfold parseArgs. fold p.
    apply bind_Throw. unfold parseArgs_listeners.
    rewrite (bind_Ok _ _ _ _ H0). cbv beta.
    rewrite (bind_Ok _ _ _ _ H1). cbv beta.
    rewrite (bind_Ok _ _ _ _ H2). cbv beta.
    destruct (flags env p conf (initialOptions env)) as [[[dbg trc] sys] chk].
    rewrite (bind_Throw _ _ _ _ (parsePollTime_Throw env p conf d ok E R)).
    cbn [fst snd]. rewrite !app_nil_r. reflexivity. }
  rewrite (construct_Throw _ _ _ _ _ H). rewrite <- !app_assoc. reflexivity.
Qed.

(** C2, evaluated at [-T nan] in the sample environment: resolution
    succeeds, no message is logged, the application is constructed, and
    the poll time it holds is a NaN, which is not in the range. *)
Theorem polltime_nan_is_accepted :
  exists o,
    construct sample_env (required_args ++ [("T", Some "nan")])%list [] = ([], Constructed o)
    /\ Options.pollTimeSecs o = S754_nan
    /\ Spec.polltime_in_range (Options.pollTimeSecs o) = false.
Proof.
  eexists. split; [vm_compute; reflexivity|]. split; reflexivity.
Qed.

(** *** The configuration file *)




Lemma values_absent (c : ConfigFile.ConfigFile) (n : QString) :
  ConfigFile.hasValue c n = false -> ConfigFile.values c n = [].
Proof.
  unfold ConfigFile.hasValue, ConfigFile.values, ConfigFile.ConfigFile, QString.
  induction c as [|[k v] c IH]; [reflexivity|].
  cbn [existsb fst]. intros H. apply orb_false_iff in H. destruct H as [Hk Hc].
  rewrite filter_cons. cbn [fst]. case_decide as Hk'; [congruence|]. exact (IH Hc).
Qed.

(** *** The warning about options set twice *)




(** *** The names of an option are equivalent for the parser *)








(** *** The certificate and key of the secure listeners *)

Lemma isEmpty_eqb (a b : QString) :
  negb (Bool.eqb (isEmpty a) (isEmpty b)) = false -> isEmpty a = isEmpty b.
Proof. destruct (isEmpty a), (isEmpty b); cbn; congruence. Qed.

Lemma pairCheck_Ok (c k txt : QString) (l : list Msg) (u : unit) :
  pairCheck c k txt = (l, Ok u) -> isEmpty c = isEmpty k.
Proof.
  unfold pairCheck. destruct (negb (Bool.eqb (isEmpty c) (isEmpty k))) eqn:E;
    [discriminate|]. intros _. apply isEmpty_eqb. exact E.
Qed.

Lemma pairCheck_same (c k txt : QString) :
  isEmpty c = isEmpty k -> pairCheck c k txt = ([], Ok tt).
Proof. unfold pairCheck. intros ->. rewrite Bool.eqb_reflx. reflexivity. Qed.

(** With a secure listener, the certificate stage succeeds only with the
    pairs complete and a certificate to use. *)
Lemma parseCerts_Ok (env : Env) (p : Parser) conf (ssl wss : bool) l r :
  ssl || wss = true ->
  parseCerts env p conf ssl wss = (l, Ok r) ->
  let cert := ConfigFile.value conf "cert" (value p "c") in
  let key := ConfigFile.value conf "key" (value p "k") in
  let wssCert := ConfigFile.value conf "wss-cert" (value p "wss-cert") in
  let wssKey := ConfigFile.value conf "wss-key" (value p "wss-key") in
  isEmpty cert = isEmpty key /\ isEmpty wssCert = isEmpty wssKey
  /\ ((isEmpty cert = false /\ isEmpty key = false)
      \/ (ssl = false /\ wss = true /\ isEmpty wssCert = false /\ isEmpty wssKey = false))
  /\ fst r <> None.
Proof.
  intros Hany H. unfold parseCerts in H. rewrite Hany in H.
  bind_inv H. bind_inv H. bind_inv H.
  apply pairCheck_Ok in Hst0, Hst1.
  set (cert := ConfigFile.value conf "cert" (value p "c")) in *.
  set (key := ConfigFile.value conf "key" (value p "k")) in *.
  set (wssCert := ConfigFile.value conf "wss-cert" (value p "wss-cert")) in *.
  set (wssKey := ConfigFile.value conf "wss-key" (value p "wss-key")) in *.
  cbv zeta. split; [exact Hst0|]. split; [exact Hst1|].
  destruct (isEmpty cert) eqn:Ec, (isEmpty wssCert) eqn:Ew, ssl, wss;
    cbn [negb andb orb] in H; try discriminate;
    rewrite <- ?Hst0, <- ?Hst1 in H; rewrite ?Ec, ?Ew in H;
    cbn [negb andb orb isEmpty] in H.
  all: try discriminate.
  all: split; [first [left; split; congruence | right; repeat split; congruence]|].
  all: bind_inv H.
  all: try (injection H as _ <-; discriminate).
  all: bind_inv H; injection H as _ <-; discriminate.
Qed.

(** With WSS listeners only, [wss-cert] and [wss-key] stand in for [cert]
    and [key]. *)
Lemma parseCerts_wss_only (env : Env) (p : Parser) conf :
  let cert := ConfigFile.value conf "cert" (value p "c") in
  let key := ConfigFile.value conf "key" (value p "k") in
  let wssCert := ConfigFile.value conf "wss-cert" (value p "wss-cert") in
  let wssKey := ConfigFile.value conf "wss-key" (value p "wss-key") in
  supportsSsl env = true ->
  isEmpty cert = true -> isEmpty key = true ->
  isEmpty wssCert = false -> isEmpty wssKey = false ->
  parseCerts env p conf false true
  = (let* ci := makeCertInfo env wssCert wssKey in ret (Some ci, None)).
Proof.
  cbv zeta. intros Hs Hc Hk Hwc Hwk. unfold parseCerts, checkSupportsSsl.
  rewrite Hs. cbn [orb negb bind ret app].
  rewrite (pairCheck_same _ _ _ (eq_trans Hc (eq_sym Hk))).
  rewrite (pairCheck_same _ _ _ (eq_trans Hwc (eq_sym Hwk))).
  cbn [bind app].
  repeat (rewrite ?Hc, ?Hwc, ?Hwk; cbn [andb orb negb isEmpty]).
  destruct (makeCertInfo env _ _) as [lc [ci|e|c]]; reflexivity.
Qed.

(** An SSL listener with neither [cert] nor [key] is refused with the
    message of the specification. *)
Lemma parseCerts_ssl_no_cert (env : Env) (p : Parser) conf (wss : bool) :
  let cert := ConfigFile.value conf "cert" (value p "c") in
  let key := ConfigFile.value conf "key" (value p "k") in
  let wssCert := ConfigFile.value conf "wss-cert" (value p "wss-cert") in
  let wssKey := ConfigFile.value conf "wss-key" (value p "wss-key") in
  supportsSsl env = true ->
  isEmpty cert = true -> isEmpty key = true -> isEmpty wssCert = isEmpty wssKey ->
  parseCerts env p conf true wss
  = ([], Throw (BadArgs "SSL option requires both -c/--cert and -k/--key options be specified")).
Proof.
  cbv zeta. intros Hs Hc Hk Hw. unfold parseCerts, checkSupportsSsl.
  rewrite Hs. cbn [orb negb bind ret app].
  rewrite (pairCheck_same _ _ _ (eq_trans Hc (eq_sym Hk))).
  rewrite (pairCheck_same _ _ _ Hw).
  cbn [bind app]. rewrite Hc. reflexivity.
Qed.

(** With one of [cert] and [key] missing, the pair check refuses first. *)
Lemma parseCerts_pair_incomplete (env : Env) (p : Parser) conf (ssl wss : bool) :
  let cert := ConfigFile.value conf "cert" (value p "c") in
  let key := ConfigFile.value conf "key" (value p "k") in
  supportsSsl env = true -> ssl || wss = true ->
  isEmpty cert <> isEmpty key ->
  parseCerts env p conf ssl wss
  = ([], Throw (BadArgs "`cert` and `key` must both be specified")).
Proof.
  cbv zeta. intros Hs Hany Hne. unfold parseCerts, checkSupportsSsl, pairCheck.
  rewrite Hs, Hany. cbn [negb bind ret app].
  destruct (isEmpty (ConfigFile.value conf "cert" (value p "c"))),
           (isEmpty (ConfigFile.value conf "key" (value p "k")));
    try (exfalso; apply Hne; reflexivity); reflexivity.
Qed.

(** C3, as amended. For every resolution that has reached the
    certificates with a listener list that holds SSL or WSS entries:
    it succeeds only if [cert] and [key] are both given or both absent,
    [wss-cert] and [wss-key] are both given or both absent, and either
    [cert] and [key] are given or there are WSS listeners only and
    [wss-cert] and [wss-key] are given, and then a certificate is loaded;
    with WSS listeners only, [wss-cert] and [wss-key] are used in place of
    [cert] and [key]; and, where TLS support is present, SSL listeners with
    neither [cert] nor [key] (and [wss-cert], [wss-key] both given or both
    absent) end the constructor with exit code 1 and the message
    "SSL option requires both -c/--cert and -k/--key options be
    specified", while with exactly one of [cert] and [key] given the
    constructor ends with exit code 1 and the message
    "`cert` and `key` must both be specified". *)
Theorem secure_listeners_need_cert_and_key (env : Env) fnd pos (l : list Msg) (e : Early) :
  let p := mkParser env fnd pos in
  let cert := ConfigFile.value (e_conf e) "cert" (value p "c") in
  let key := ConfigFile.value (e_conf e) "key" (value p "k") in
  let wssCert := ConfigFile.value (e_conf e) "wss-cert" (value p "wss-cert") in
  let wssKey := ConfigFile.value (e_conf e) "wss-key" (value p "wss-key") in
  parseArgs_listeners env p = (l, Ok e) ->
  hasSSL e || hasWSS e = true ->
  (forall l' o, parseArgs env fnd pos = (l', Ok o) ->
     isEmpty cert = isEmpty key /\ isEmpty wssCert = isEmpty wssKey
     /\ ((isEmpty cert = false /\ isEmpty key = false)
         \/ (hasSSL e = false /\ hasWSS e = true
             /\ isEmpty wssCert = false /\ isEmpty wssKey = false))
     /\ Options.certInfo o <> None)
  /\ (supportsSsl env = true -> hasSSL e = false ->
      isEmpty cert = true -> isEmpty key = true ->
      isEmpty wssCert = false -> isEmpty wssKey = false ->
      parseCerts env p (e_conf e) (hasSSL e) (hasWSS e)
      = (let* ci := makeCertInfo env wssCert wssKey in ret (Some ci, None)))
  /\ (supportsSsl env = true -> hasSSL e = true ->
      isEmpty cert = true -> isEmpty key = true -> isEmpty wssCert = isEmpty wssKey ->
      construct env fnd pos
      = ((l ++ [(Util.Critical,
                 "SSL option requires both -c/--cert and -k/--key options be specified");
                (Util.Info, "Use the -h option to show help.")])%list,
         Exited 1))
  /\ (supportsSsl env = true -> isEmpty cert <> isEmpty key ->
      construct env fnd pos
      = ((l ++ [(Util.Critical, "`cert` and `key` must both be specified");
                (Util.Info, "Use the -h option to show help.")])%list,
         Exited 1)).
Proof.
  intros p cert key wssCert wssKey He Hany. split; [|split; [|split]].
  - intros l' o H. apply parseArgs_Ok_inv in H. fold p in H.
    destruct H as (e' & l0 & l1 & He' & Hc & _).
    rewrite He in He'. injection He' as _ <-.
    exact (parseCerts_Ok env p (e_conf e) (hasSSL e) (hasWSS e) l1 _ Hany Hc).
  - intros Hs Hssl Hc Hk Hwc Hwk.
    rewrite Hssl in Hany |- *. cbn [orb] in Hany. rewrite Hany.
    exact (parseCerts_wss_only env p (e_conf e) Hs Hc Hk Hwc Hwk).
  - intros Hs Hssl Hc Hk Hw.
    apply (construct_Throw env fnd pos l
             (BadArgs "SSL option requires both -c/--cert and -k/--key options be specified")).
    unfold parseArgs. fold p.
    rewrite (bind_Ok _ _ _ _ He). cbv beta zeta.
    rewrite Hssl.
    rewrite (bind_Throw _ _ _ _ (parseCerts_ssl_no_cert env p (e_conf e) (hasWSS e) Hs Hc Hk Hw)).
    cbn [fst snd]. rewrite app_nil_r. reflexivity.
  - intros Hs Hne.
    apply (construct_Throw env fnd pos l (BadArgs "`cert` and `key` must both be specified")).
    unfold parseArgs. fold p.
    rewrite (bind_Ok _ _ _ _ He). cbv beta zeta.
    rewrite (bind_Throw _ _ _ _
               (parseCerts_pair_incomplete env p (e_conf e) (hasSSL e) (hasWSS e) Hs Hany Hne)).
    cbn [fst snd]. rewrite app_nil_r. reflexivity.
Qed.

(** [--ssl 0.0.0.0:50002] without [--cert] and [--key]. *)
Lemma secure_listeners_need_cert_and_key_witness :
  construct sample_env (required_args ++ [("s", Some "0.0.0.0:50002")])%list []
  = ([(Util.Critical, "SSL option requires both -c/--cert and -k/--key options be specified");
      (Util.Info, "Use the -h option to show help.")],
     Exited 1).
Proof.
  edestruct (secure_listeners_need_cert_and_key sample_env
               (required_args ++ [("s", Some "0.0.0.0:50002")])%list [] [])
    as (_ & _ & H & _).
  - vm_compute. reflexivity.
  - reflexivity.
  - apply H; reflexivity.
Defined.

(** C3 as stated fails: with [--ssl 0.0.0.0:50002 --key key.pem] the SSL
    listener has no certificate, and the constructor ends with exit code 1
    but with another message. *)
Lemma ssl_without_cert_other_message :
  value (mkParser sample_env
           (required_args ++ [("s", Some "0.0.0.0:50002"); ("k", Some "key.pem")])%list [])
        "c" = EmptyString
  /\ construct sample_env
       (required_args ++ [("s", Some "0.0.0.0:50002"); ("k", Some "key.pem")])%list []
     = ([(Util.Critical, "`cert` and `key` must both be specified");
         (Util.Info, "Use the -h option to show help.")],
        Exited 1).
Proof. split; vm_compute; reflexivity. Qed.

(** *** [-q] *)

(** After a resolution in which [-q] was given, [Trace::isEnabled()] is
    false, whatever else was given. *)
Lemma quiet_disables_trace (env : Env) fnd pos (l : list Msg) (o : Options.Options)
      (lg : option Util.Logger) (th : Util.Thread) :
  parseArgs env fnd pos = (l, Ok o) ->
  isSet (mkParser env fnd pos) "q" = true ->
  Util.Trace_isEnabled (Some {| Util.options := o; Util.logger := lg; Util.thread := th |})
  = false.
Proof.
  intros H Hq. apply parseArgs_Ok_inv in H.
  destruct H as (e & l0 & l1 & He & _ & _ & Hd & _).
  apply parseArgs_listeners_Ok_inv in He.
  destruct He as (conf0 & l2 & l3 & l4 & _ & _ & _ & Hf).
  unfold flags in Hf. rewrite Hq in Hf. cbn [orb] in Hf.
  injection Hf as Hdbg _ _ _.
  cbn. rewrite Hd, <- Hdbg. apply andb_false_r.
Qed.

End Resolution.

(** ** Splitting and joining *)

Section Splitting.
Import Text.

Lemma split_not_nil (c : ascii) (s : QString) : split c s <> [].
Proof.
  destruct s as [|a r]; cbn; [discriminate|].
  destruct (Ascii.eqb a c); [discriminate|]. destruct (split c r); discriminate.
Qed.

Lemma split_app (c : ascii) (a b : QString) :
  split c (a +:+ String c b) = (split c a ++ split c b)%list.
Proof.
  induction a as [|x a IH].
  - rewrite append_nil_l. cbn. rewrite Ascii.eqb_refl. reflexivity.
  - rewrite append_cons. cbn. destruct (Ascii.eqb x c); [rewrite IH; reflexivity|].
    rewrite IH. pose proof (split_not_nil c a) as Hne.
    destruct (split c a) as [|h t]; [contradiction|]. reflexivity.
Qed.

Lemma lacks_cons (c x : ascii) (s : QString) :
  lacks c (String x s) <-> x <> c /\ lacks c s.
Proof.
  unfold lacks, s2l. cbn. split.
  - intros H. split; [intros ->; apply H; left; reflexivity | intros Hin; apply H; right; exact Hin].
  - intros [Hx Hs] [Heq|Hin]; [apply Hx; exact Heq | exact (Hs Hin)].
Qed.

Lemma lacks_nil (c : ascii) : lacks c EmptyString.
Proof. unfold lacks. cbn. tauto. Qed.

Lemma lacks_app (c : ascii) (a b : QString) :
  lacks c (a +:+ b) <-> lacks c a /\ lacks c b.
Proof.
  unfold lacks. rewrite s2l_app, in_app_iff. tauto.
Qed.

Lemma split_lacks (c : ascii) (s : QString) : lacks c s -> split c s = [s].
Proof.
  induction s as [|x s IH]; [reflexivity|].
  intros H. apply lacks_cons in H. destruct H as [Hx Hs]. cbn.
  apply Ascii.eqb_neq in Hx. rewrite Hx, (IH Hs). reflexivity.
Qed.

Lemma split_parts_lack (c : ascii) (s : QString) :
  Forall (lacks c) (split c s).
Proof.
  induction s as [|x s IH]; cbn.
  - constructor; [apply lacks_nil | constructor].
  - destruct (Ascii.eqb_spec x c) as [->|Hne].
    + constructor; [apply lacks_nil | exact IH].
    + destruct (split c s) as [|h t]; [constructor; [|constructor]|].
      * apply lacks_cons. split; [exact Hne | apply lacks_nil].
      * inversion IH as [|? ? Hh Ht]; subst. constructor; [|exact Ht].
        apply lacks_cons. split; assumption.
Qed.

Lemma join_split (c : ascii) (s : QString) :
  join (String c EmptyString) (split c s) = s.
Proof.
  induction s as [|x s IH]; [reflexivity|]. cbn.
  pose proof (split_not_nil c s) as Hne.
  destruct (Ascii.eqb_spec x c) as [->|Hx].
  - destruct (split c s) as [|h t] eqn:E; [contradiction|].
    cbn [join]. rewrite append_nil_l. cbn [join] in IH.
    rewrite append_cons, append_nil_l. f_equal. exact IH.
  - destruct (split c s) as [|h t] eqn:E; [contradiction|].
    destruct t as [|h' t'].
    + cbn in *. rewrite IH. reflexivity.
    + cbn [join] in *. rewrite append_cons. f_equal. exact IH.
Qed.

Lemma join_removelast (sep : QString) (l : list QString) (x y : QString) :
  join sep (x :: y :: l)
  = join sep (removelast (x :: y :: l)) +:+ sep +:+ List.last (x :: y :: l) EmptyString.
Proof.
  revert x y. induction l as [|z l IH]; intros x y.
  - reflexivity.
  - change (join sep (x :: y :: z :: l)) with (x +:+ sep +:+ join sep (y :: z :: l)).
    rewrite (IH y z).
    change (removelast (x :: y :: z :: l)) with (x :: removelast (y :: z :: l)).
    change (List.last (x :: y :: z :: l) EmptyString) with (List.last (y :: z :: l) EmptyString).
    destruct (removelast (y :: z :: l)) as [|r rs] eqn:E.
    + destruct l; discriminate.
    + change (join sep (x :: r :: rs)) with (x +:+ sep +:+ join sep (r :: rs)).
      rewrite !append_assoc. reflexivity.
Qed.

Lemma last_In {A} (l : list A) (d : A) : l <> [] -> In (List.last l d) l.
Proof.
  induction l as [|x l IH]; [contradiction|]. intros _.
  destruct l as [|y l]; [left; reflexivity|].
  right. apply IH. discriminate.
Qed.

End Splitting.

(** ** [Util::basename] *)

Section Basename.
Import Text UtilMore.

(** X24. The base name of a path holds no slash; a name without a slash is
    its own base name, and it is the base name of every path that ends in a
    slash followed by it. *)
Theorem basename_last_component (s d f : QString) :
  lacks "/" (basename s)
  /\ (lacks "/" f -> basename f = f /\ basename (d +:+ "/" +:+ f) = f).
Proof.
  unfold basename. split.
  - pose proof (split_parts_lack "/" s) as H. rewrite List.Forall_forall in H.
    apply H. apply last_In. apply split_not_nil.
  - intros Hf. split; [rewrite (split_lacks _ _ Hf); reflexivity|].
    change (d +:+ "/" +:+ f) with (d +:+ String "/" f).
    rewrite split_app, (split_lacks _ _ Hf).
    rewrite last_app_ne by discriminate. reflexivity.
Qed.

Lemma basename_last_component_witness :
  basename "/usr/local/etc/fulcrum.conf" = "fulcrum.conf".
Proof.
  apply (proj2 (basename_last_component EmptyString "/usr/local/etc" "fulcrum.conf")).
  unfold lacks. cbn. intros H. repeat (destruct H as [H|H]; [discriminate|]). exact H.
Defined.

End Basename.

(** ** Endpoints *)

Ltac unbind H :=
  let l1 := fresh "l" in
  let a := fresh "a" in
  let l2 := fresh "l" in
  let H1 := fresh "Hst" in
  let H3 := fresh "Hlog" in
  apply bind_Ok_inv in H; destruct H as (l1 & a & l2 & H1 & H & H3); cbv beta in H.

Section Endpoints.
Import Text App.

Lemma parsePort_cases (env : Env) (portStr : QString) :
  (exists port, toUShort env portStr = (port, true) /\ port <> 0
                /\ parsePort env portStr = ([], Ok port))
  \/ parsePort env portStr = ([], Throw (BadArgs ("Bad port: " +:+ portStr))).
Proof.
  unfold parsePort. destruct (toUShort env portStr) as [port ok].
  destruct ok; cbn [negb orb]; [|right; reflexivity].
  destruct (Z.eqb_spec port 0) as [->|Hne]; [right; reflexivity|].
  left. exists port. repeat split. exact Hne.
Qed.

Lemma split_two (s : QString) :
  (2 <= length (split ":" s))%nat ->
  exists x y l, split ":" s = x :: y :: l.
Proof.
  destruct (split ":" s) as [|x [|y l]]; cbn; try lia.
  intros _. exists x, y, l. reflexivity.
Qed.

(** X1. When a [host:port] text is accepted, it is the host, a colon and
    the port text, in that order; the port text holds no colon (so the host
    is everything before the last colon, as an IPv6 address needs), the
    host is not empty, and the port is the conversion of the port text and
    is not 0. Nothing is logged. *)
Theorem parseHostnamePortPair_accepts (env : Env) (s : QString) (l : list Msg)
        (host : QString) (port : Z) :
  parseHostnamePortPair env s false = (l, Ok (host, port)) ->
  l = []
  /\ isEmpty host = false
  /\ port <> 0
  /\ exists portStr,
       s = host +:+ ":" +:+ portStr
       /\ lacks ":" portStr
       /\ toUShort env portStr = (port, true).
Proof.
  unfold parseHostnamePortPair. cbn [andb].
  destruct (Nat.ltb_spec (length (split ":" s)) 2) as [Hlt|Hge]; [discriminate|].
  destruct (split_two s Hge) as (x & y & r & E).
  pose proof (join_split ":" s) as Hjoin.
  pose proof (split_parts_lack ":" s) as Hlack.
  rewrite E in *.
  set (hostStr := join ":" (removelast (x :: y :: r))) in *.
  set (portStr := List.last (x :: y :: r) EmptyString) in *.
  destruct (isEmpty hostStr) eqn:Eh; [discriminate|].
  destruct (parsePort_cases env portStr) as [(p & Hp & Hne & Ep) | Ep]; rewrite Ep;
    cbn; [|discriminate].
  intros [= <- <- <-]. repeat split; [exact Eh | exact Hne |].
  exists portStr. repeat split; [| |exact Hp].
  - rewrite <- Hjoin. apply (join_removelast ":" r x y).
  - rewrite List.Forall_forall in Hlack. apply Hlack. apply last_In. discriminate.
Qed.

(** [127.0.0.1:8332] in the sample environment. *)
Lemma parseHostnamePortPair_accepts_witness :
  exists portStr,
    "127.0.0.1:8332" = "127.0.0.1" +:+ ":" +:+ portStr
    /\ lacks ":" portStr
    /\ toUShort sample_env portStr = (8332, true).
Proof.
  destruct (parseHostnamePortPair_accepts sample_env "127.0.0.1:8332" [] "127.0.0.1" 8332 eq_refl)
    as (_ & _ & _ & H).
  exact H.
Defined.

(** X2. A text without a colon is a bare port: it is refused with the
    malformed-spec message where the implicit loopback is not allowed, and
    where it is allowed it is accepted exactly when it converts to a port
    that is not 0, with [127.0.0.1] as the host. *)
Theorem parseHostnamePortPair_bare_port (env : Env) (s : QString) :
  lacks ":" s ->
  parseHostnamePortPair env s false = ([], Throw (BadArgs msg1))
  /\ (forall port, toUShort env s = (port, true) -> port <> 0 ->
        parseHostnamePortPair env s true = ([], Ok ("127.0.0.1", port)))
  /\ (forall l host port,
        parseHostnamePortPair env s true = (l, Ok (host, port)) ->
        host = "127.0.0.1" /\ toUShort env s = (port, true) /\ port <> 0).
Proof.
  intros Hs. unfold parseHostnamePortPair. rewrite (split_lacks _ _ Hs). cbn.
  split; [reflexivity|].
  destruct (parsePort_cases env s) as [(p & Hp & Hne & Ep) | Ep]; rewrite Ep; cbn.
  - split.
    + intros port Hport _. rewrite Hp in Hport. injection Hport as <-. reflexivity.
    + intros l host port [= <- <- <-]. repeat split; assumption.
  - split; [|intros l host port H; discriminate].
    intros port Hport Hne. exfalso.
    unfold parsePort in Ep. rewrite Hport in Ep. cbn in Ep.
    apply Z.eqb_neq in Hne. rewrite Hne in Ep. discriminate.
Qed.

(** [-a 8000]: the admin port by itself. *)
Lemma parseHostnamePortPair_bare_port_witness :
  parseHostnamePortPair sample_env "8000" true = ([], Ok ("127.0.0.1", 8000)).
Proof.
  apply (proj1 (proj2 (parseHostnamePortPair_bare_port sample_env "8000"
                         ltac:(unfold lacks; cbn; intuition discriminate))));
    [reflexivity | discriminate].
Defined.

Lemma parseHostnamePortPair_silent (env : Env) (s : QString) (a : bool) l r :
  parseHostnamePortPair env s a = (l, r) -> l = [].
Proof.
  unfold parseHostnamePortPair.
  destruct (length (split ":" s) <? 2)%nat.
  - destruct (a && (length (split ":" s) =? 1)%nat); [|intros [= <- _]; reflexivity].
    destruct (parsePort_cases env (List.hd EmptyString (split ":" s)))
      as [(p & _ & _ & Ep) | Ep]; rewrite Ep; cbn; intros [= <- _]; reflexivity.
  - destruct (isEmpty _); [intros [= <- _]; reflexivity|].
    destruct (parsePort_cases env (List.last (split ":" s) EmptyString))
      as [(p & _ & _ & Ep) | Ep]; rewrite Ep; cbn; intros [= <- _]; reflexivity.
Qed.

Lemma parseInterface_Ok (env : Env) (a v6 : bool) (s : QString) l v6' i :
  parseInterface env a v6 s = (l, Ok (v6', i)) ->
  l = []
  /\ parseHostnamePortPair env s a = ([], Ok i)
  /\ exists isV6, hostAddress env (fst i) = Some isV6 /\ v6' = v6 || isV6.
Proof.
  unfold parseInterface.
  destruct (parseHostnamePortPair env s a) as [l0 r] eqn:E.
  pose proof (parseHostnamePortPair_silent env s a l0 r E) as ->.
  destruct r as [[h p]|e|c]; cbn; try discriminate.
  destruct (hostAddress env h) as [isV6|] eqn:Eh; cbn; [|discriminate].
  intros [= <- <- <-]. repeat split. exists isV6. split; [exact Eh | reflexivity].
Qed.

Lemma parseInterfaces_acc (env : Env) (a : bool) (l : list QString) :
  forall v6 acc lg v6' ifs,
    forM l (v6, acc) (fun acc s =>
      let* r := parseInterface env a (fst acc) s in
      ret (fst r, (snd acc ++ [snd r])%list)) = (lg, Ok (v6', ifs)) ->
    exists new,
      ifs = (acc ++ new)%list /\ lg = []
      /\ Forall2 (fun s i => parseHostnamePortPair env s a = ([], Ok i)
                            /\ is_Some (hostAddress env (fst i))) l new
      /\ v6' = v6 || existsb (fun i => bool_decide (hostAddress env (fst i) = Some true)) new.
Proof.
  induction l as [|s l IH]; intros v6 acc lg v6' ifs H.
  - cbn in H. injection H as <- <- <-. exists []. rewrite app_nil_r, orb_false_r.
    repeat split. constructor.
  - cbn [forM] in H. unbind H. unbind Hst. cbn [fst snd] in *.
    destruct a1 as [b i]. cbn [fst snd] in *.
    apply parseInterface_Ok in Hst0. destruct Hst0 as (-> & Hp & isV6 & Hh & ->).
    injection Hst as <- <-.
    apply IH in H. destruct H as (new & -> & -> & HF & ->).
    exists (i :: new). rewrite <- app_assoc. cbn [app].
    repeat split.
    + subst. reflexivity.
    + constructor; [split; [exact Hp | rewrite Hh; eexists; reflexivity] | exact HF].
    + cbn [existsb]. rewrite Hh. rewrite orb_assoc. f_equal.
      destruct isV6; [rewrite bool_decide_eq_true_2 by reflexivity; reflexivity|].
      rewrite bool_decide_eq_false_2 by discriminate. reflexivity.
Qed.

(** X3. When a list of listener values is accepted, there is one endpoint
    for each value, in the order of the values; each is what
    [parseHostnamePortPair] makes of its value and has an address Qt
    accepts; and the IPv6 flag is set exactly when it was set before or
    some endpoint has an IPv6 address. Nothing is logged. *)
Theorem parseInterfaces_one_per_value (env : Env) (a v6 : bool) (l : list QString)
        (lg : list Msg) (v6' : bool) (ifs : list Options.Interface) :
  parseInterfaces env v6 l a = (lg, Ok (v6', ifs)) ->
  lg = []
  /\ length ifs = length l
  /\ Forall2 (fun s i => parseHostnamePortPair env s a = ([], Ok i)
                         /\ is_Some (hostAddress env (fst i))) l ifs
  /\ v6' = v6 || existsb (fun i => bool_decide (hostAddress env (fst i) = Some true)) ifs.
Proof.
  intros H. unfold parseInterfaces in H.
  apply parseInterfaces_acc in H. destruct H as (new & -> & -> & HF & ->).
  cbn [app]. repeat split; [|exact HF].
  symmetry. exact (Forall2_length _ _ _ HF).
Qed.

(** [--tcp 0.0.0.0:50001 --tcp ::1:50001]. *)
Lemma parseInterfaces_one_per_value_witness :
  length [("0.0.0.0", 50001); ("::1", 50001)] = 2%nat.
Proof.
  destruct (parseInterfaces_one_per_value sample_env false false
              ["0.0.0.0:50001"; "::1:50001"] [] true
              [("0.0.0.0", 50001); ("::1", 50001)] eq_refl) as (_ & H & _).
  exact H.
Defined.

End Endpoints.

(** ** The parameters of [/debug] *)

Section DebugParams.
Import Text App AppMore.

Lemma ParseParams_snoc (qs item : QString) :
  lacks "&" item ->
  ParseParams (request (qs +:+ "&" +:+ item))
  = (let nv := split "=" item in
     if (length nv =? 2)%nat
     then <[ List.hd EmptyString nv := List.last nv EmptyString ]> (ParseParams (request qs))
     else ParseParams (request qs)).
Proof.
  intros Hi. unfold ParseParams, request. cbn [queryString].
  change (qs +:+ "&" +:+ item) with (qs +:+ String "&" item).
  rewrite split_app, (split_lacks _ _ Hi), fold_left_app. reflexivity.
Qed.

(** X15. A [key=value] item added at the end of a query string defines the
    key and leaves every other key as the string before it had it; an item
    without [=] added at the end changes nothing. The key and the value
    are taken to hold neither [&] nor [=]. *)
Theorem ParseParams_last_item (qs k v : QString) :
  lacks "&" k -> lacks "=" k -> lacks "&" v -> lacks "=" v ->
  ParseParams (request (qs +:+ "&" +:+ k +:+ "=" +:+ v)) !! k = Some v
  /\ (forall k', k' <> k ->
        ParseParams (request (qs +:+ "&" +:+ k +:+ "=" +:+ v)) !! k'
        = ParseParams (request qs) !! k')
  /\ ParseParams (request (qs +:+ "&" +:+ k)) = ParseParams (request qs).
Proof.
  intros Hk1 Hk2 Hv1 Hv2.
  assert (Hitem : lacks "&" (k +:+ "=" +:+ v)).
  { apply lacks_app. split; [exact Hk1|]. apply lacks_app. split; [|exact Hv1].
    apply lacks_cons. split; [discriminate | apply lacks_nil]. }
  rewrite (ParseParams_snoc qs (k +:+ "=" +:+ v) Hitem).
  rewrite (ParseParams_snoc qs k Hk1).
  change (k +:+ "=" +:+ v) with (k +:+ String "=" v).
  rewrite split_app, (split_lacks _ _ Hk2), (split_lacks _ _ Hv2). cbn.
  repeat split.
  - apply lookup_insert_eq.
  - intros k' Hne. apply lookup_insert_ne. congruence.
Qed.

Lemma ParseParams_last_item_witness :
  ParseParams (request ("a=1&b" +:+ "&" +:+ "num" +:+ "=" +:+ "7")) !! "num" = Some "7".
Proof.
  apply (proj1 (ParseParams_last_item "a=1&b" "num" "7"
                  ltac:(unfold lacks; cbn; intuition discriminate)
                  ltac:(unfold lacks; cbn; intuition discriminate)
                  ltac:(unfold lacks; cbn; intuition discriminate)
                  ltac:(unfold lacks; cbn; intuition discriminate))).
Defined.

End DebugParams.

(** ** The verbosity slots *)

Section Verbosity.
Import App AppMore.

(** X16. After [on_setVerboseDebug] and after [on_setVerboseTrace],
    whatever the options were and whatever the argument is, trace
    verbosity is on only if debug verbosity is on, so [Trace::isEnabled()]
    is the trace flag itself; and neither slot touches the poll time or
    the listeners. *)
Theorem verbosity_slots_keep_trace_under_debug (b : bool) (o : Options.Options) :
  let o1 := on_setVerboseDebug b o in
  let o2 := on_setVerboseTrace b o in
  (Options.verboseTrace o1 = true -> Options.verboseDebug o1 = true)
  /\ (Options.verboseTrace o2 = true -> Options.verboseDebug o2 = true)
  /\ Util.Trace_isEnabled (Some (appWith o1)) = Options.verboseTrace o1
  /\ Util.Trace_isEnabled (Some (appWith o2)) = Options.verboseTrace o2
  /\ Options.verboseDebug o1 = b /\ Options.verboseTrace o2 = b
  /\ Options.pollTimeSecs o1 = Options.pollTimeSecs o
  /\ Options.pollTimeSecs o2 = Options.pollTimeSecs o
  /\ Options.interfaces o1 = Options.interfaces o
  /\ Options.interfaces o2 = Options.interfaces o.
Proof.
  cbv zeta. unfold on_setVerboseDebug, on_setVerboseTrace, set_verbose. cbn.
  destruct b, (Options.verboseTrace o), (Options.verboseDebug o); cbn;
    repeat split; congruence.
Qed.

(** Resolution itself does not keep that order: [-d -d -q] leaves trace on
    and debug off, which is why [Trace::isEnabled()] looks at both. *)
Example trace_without_debug_after_parseArgs :
  exists o,
    parseArgs sample_env (required_args ++ [("d", None); ("d", None); ("q", None)])%list []
    = ([], Ok o)
    /\ Options.verboseTrace o = true /\ Options.verboseDebug o = false.
Proof. eexists. split; [vm_compute; reflexivity|]. split; reflexivity. Qed.

End Verbosity.

(** ** The registry of tests and benches *)

Section Registry.
Import AppMore.

Lemma registerTest_lookup (m : gmap string nat) (name : QString) (func : nat) (n : QString) :
  fst (registerTest false m name func) !! n
  = match m !! n with
    | Some f => Some f
    | None => if String.eqb name n then Some func else None
    end.
Proof.
  unfold registerTest, registerTestBenchCommon.
  destruct (String.eqb_spec name n) as [->|Hne].
  - destruct (m !! n) eqn:E; cbn [fst]; [exact E | apply lookup_insert_eq].
  - destruct (m !! name) eqn:E; cbn [fst].
    + destruct (m !! n); reflexivity.
    + rewrite lookup_insert_ne by exact Hne. destruct (m !! n); reflexivity.
Qed.

(** X17. Before the application has started, after any run of
    registrations the hook found under a name is the one the map held
    before, if it held one, and else the first one registered under that
    name: a later registration of the same name never replaces it. Once
    the application has started, registrations leave the map as it is. *)
Theorem registerTest_first_wins (regs : list (QString * nat)) (m : gmap string nat)
        (n : QString) :
  registerAll false regs m !! n
  = match m !! n with
    | Some f => Some f
    | None => option_map snd (List.find (fun r => String.eqb (fst r) n) regs)
    end
  /\ registerAll true regs m = m.
Proof.
  unfold registerAll. split.
  - revert m. induction regs as [|[name func] regs IH]; intros m.
    + cbn. destruct (m !! n); reflexivity.
    + cbn [fold_left fst snd List.find]. rewrite IH, registerTest_lookup.
      destruct (m !! n); [reflexivity|].
      destruct (String.eqb name n); reflexivity.
  - induction regs as [|r regs IH]; [reflexivity|]. cbn [fold_left]. exact IH.
Qed.

End Registry.

(** ** The helper threads of [RunInThread] *)

Section HelperThreads.
Import UtilMore.

Lemma step_blocked (st : Threads) (ev : Event) :
  blockNew st = true ->
  blockNew (step st ev) = true /\ extant (step st ev) ⊆ extant st.
Proof.
  intros Hb. destruct ev as [this|this]; cbn; unfold construct, done.
  - rewrite Hb. cbn. split; [exact Hb | reflexivity].
  - cbn. split; [exact Hb | apply subseteq_difference_l; reflexivity].
Qed.

Lemma run_blocked (evs : list Event) (st : Threads) :
  blockNew st = true ->
  blockNew (run evs st) = true /\ extant (run evs st) ⊆ extant st.
Proof.
  unfold run. revert st. induction evs as [|ev evs IH]; intros st Hb.
  - cbn. split; [exact Hb | reflexivity].
  - cbn [fold_left]. destruct (step_blocked st ev Hb) as [Hb1 Hs1].
    destruct (IH _ Hb1) as [Hb2 Hs2]. split; [exact Hb2 | etrans; [exact Hs2 | exact Hs1]].
Qed.


(** X20. Once [blockNew] is set, no run of constructions and completions
    adds a thread to the extant set: the set after the run is a subset of
    the set before, and [blockNew] stays set. Before that, a construction
    does enter its thread. *)
Theorem blockNew_stops_new_threads (evs : list Event) (st : Threads) (this : nat) :
  (blockNew st = true ->
     blockNew (run evs st) = true /\ extant (run evs st) ⊆ extant st)
  /\ (blockNew st = false -> this ∈ extant (fst (construct this st))
                           /\ snd (construct this st) = true)
  /\ (blockNew st = true -> construct this st = (st, false)).
Proof.
  split; [apply run_blocked|]. unfold construct. split; intros ->; cbn;
    [split; [apply elem_of_union_l, elem_of_singleton; reflexivity | reflexivity]
    | reflexivity].
Qed.



End HelperThreads.

(** ** The two clocks *)

Section ClockReadings.
Import Util.

(** X22. On a clock with a positive period the millisecond reading is the
    nanosecond reading of the same instant divided by a million, the
    fraction cut off (towards zero). *)
Theorem getTime_truncates_getTimeNS (c : Clock) (k : nat) :
  0 < period_den c ->
  getTime c k = Z.quot (getTimeNS c k) 1000000.
Proof.
  intros Hden. unfold getTime, getTimeNS, duration_cast.
  set (d := now c k - t0 c).
  rewrite Z.quot_quot by lia.
  replace (d * (period_num c * 1000000000))
    with (d * (period_num c * 1000) * 1000000) by lia.
  rewrite Z.quot_mul_cancel_r by lia. reflexivity.
Qed.

(** The reading 1500 of the nanosecond clock that is read every
    microsecond. *)
Lemma getTime_truncates_getTimeNS_witness :
  getTime clock_us 1500 = Z.quot (getTimeNS clock_us 1500) 1000000.
Proof. exact (getTime_truncates_getTimeNS clock_us 1500 eq_refl). Defined.

(** X23. On a steady clock neither reading is ever negative, and of two
    readings the later one is not smaller, in nanoseconds as in
    milliseconds. *)
Theorem readings_steady_non_negative (c : Clock) (i j : nat) :
  clock_ok c -> isClockSteady c = true -> (i <= j)%nat ->
  0 <= getTimeNS c i <= getTimeNS c j /\ 0 <= getTime c i <= getTime c j.
Proof.
  intros (Hnum & Hden & Hmono) Hsteady Hij.
  pose proof (Hmono Hsteady 0%nat i (Nat.le_0_l i)) as H0.
  pose proof (Hmono Hsteady i j Hij) as H1.
  unfold getTime, getTimeNS, duration_cast, t0.
  repeat split.
  - apply Z.quot_pos; [|exact Hden]. apply Z.mul_nonneg_nonneg; lia.
  - apply Z.quot_le_mono; [exact Hden|]. apply Z.mul_le_mono_nonneg_r; lia.
  - apply Z.quot_pos; [|exact Hden]. apply Z.mul_nonneg_nonneg; lia.
  - apply Z.quot_le_mono; [exact Hden|]. apply Z.mul_le_mono_nonneg_r; lia.
Qed.

Lemma readings_steady_non_negative_witness :
  0 <= getTimeNS clock_us 3 <= getTimeNS clock_us 2000
  /\ 0 <= getTime clock_us 3 <= getTime clock_us 2000.
Proof.
  apply (readings_steady_non_negative clock_us 3 2000 clock_us_ok eq_refl). lia.
Defined.

End ClockReadings.

(** ** Json texts *)

Section JsonText.
Import App UtilMore.

(** X25. What [Json::parseString] returns is the variant of the document
    Qt parsed, and it is a map when a map was expected and a list when a
    list was expected, never the other and never anything else. It throws
    a [ParseError] exactly when Qt gives a null document. *)
Theorem parseString_kind (q : Codec) (str : QString) (expectMap : bool) :
  (forall v, parseString q str expectMap = inl v ->
     v = toVariant (fst (fromJson q str))
     /\ isMap v = expectMap /\ isList v = negb expectMap)
  /\ ((exists w, parseString q str expectMap = inr (ParseError w))
      <-> doc_isNull (fst (fromJson q str)) = true).
Proof.
  unfold parseString. destruct (fromJson q str) as [d e]. cbn [fst].
  destruct d as [|l|m], expectMap; cbn; split;
    try (intros v [= <-]; repeat split);
    try (intros v H; discriminate);
    split; try discriminate;
    try (intros _; eexists; reflexivity);
    intros [w H]; discriminate.
Qed.

(** X26. [Json::toString] returns a text for a list or a map and for
    nothing else, and what [Json::parseString] returned it always turns
    into text again: the text Qt writes for the document that was parsed. *)
Theorem toString_after_parseString (q : Codec) (str : QString) (expectMap compact : bool)
        (v : QVariant) :
  ((exists s, toString q v compact = inl s) <-> isList v || isMap v = true)
  /\ (parseString q str expectMap = inl v ->
      toString q v compact = inl (toJson q (fst (fromJson q str)) compact)).
Proof.
  split.
  - unfold toString. destruct v; cbn; split;
      try discriminate; try (intros [? H]; discriminate);
      intros _; eexists; reflexivity.
  - unfold parseString, toString. destruct (fromJson q str) as [d e]. cbn [fst].
    destruct d as [|l|m], expectMap; cbn; try discriminate;
      intros [= <-]; reflexivity.
Qed.

(** The empty object, expected as a map and written compactly. *)
Lemma toString_after_parseString_witness :
  toString sample_codec (VMap []) true = inl "{}".
Proof.
  exact (proj2 (toString_after_parseString sample_codec "{}" true true (VMap [])) eq_refl).
Defined.

End JsonText.

(** ** Certificates and keys *)

Section Certificates.
Import App Options.

(** X14. When [makeCertInfo] returns, nothing was logged; the record names
    the two files it was given, both exist and open; the key was read with
    the algorithm the record holds, RSA was tried first and EC before DSA
    and DH; an elliptic curve key is accepted only where Qt supports
    curves; and the certificate was read and is self signed, or it comes
    with a chain of at least two certificates. *)
Theorem makeCertInfo_guarantees (env : Env) (cert key : QString) (l : list Msg)
        (ci : CertInfo) :
  makeCertInfo env cert key = (l, Ok ci) ->
  l = []
  /\ file ci = cert /\ keyFile ci = key
  /\ fileExists env cert = true /\ fileExists env key = true
  /\ fileOpenError env cert = None /\ fileOpenError env key = None
  /\ readKey env key (keyAlgorithm ci) = true
  /\ (keyAlgorithm ci <> Rsa -> readKey env key Rsa = false)
  /\ (keyAlgorithm ci = Dsa \/ keyAlgorithm ci = Dh -> readKey env key Ec = false)
  /\ (keyAlgorithm ci = Ec -> supportedEllipticCurves env = true)
  /\ (exists n, readCert env cert = Some (selfSigned ci, n)
                /\ certChain ci = if selfSigned ci then 0%nat else n)
  /\ (selfSigned ci = false -> (2 <= certChain ci)%nat).
Proof.
  unfold makeCertInfo, probeKey.
  destruct (fileExists env cert); cbn [negb]; [|discriminate].
  destruct (fileExists env key); cbn [negb]; [|discriminate].
  destruct (fileOpenError env cert); [discriminate|].
  destruct (fileOpenError env key); [discriminate|].
  cbn [List.find].
  destruct (readKey env key Rsa) eqn:K1;
    [|destruct (readKey env key Ec) eqn:K2;
      [|destruct (readKey env key Dsa) eqn:K3;
        [|destruct (readKey env key Dh) eqn:K4; [|discriminate]]]].
  all: cbn [andb negb].
  all: destruct (supportedEllipticCurves env) eqn:Ecv; cbn [andb negb]; try discriminate.
  all: destruct (readCert env cert) as [[selfSgn chain]|]; [|discriminate].
  all: destruct selfSgn; cbn [negb andb];
    [|destruct (Nat.ltb_spec chain 2); [discriminate|]].
  all: intros [= <- <-]; cbn.
  all: repeat split; try congruence; try (intros [?|?]; congruence);
    try (eexists; split; reflexivity); try discriminate; try lia.
Qed.

(** The files [cert.pem] and [key.pem] of the sample environment: an RSA
    key and a self-signed certificate. *)
Lemma makeCertInfo_guarantees_witness :
  readKey sample_env "key.pem" Rsa = true
  /\ fileExists sample_env "cert.pem" = true.
Proof.
  destruct (makeCertInfo_guarantees sample_env "cert.pem" "key.pem" []
              {| file := "cert.pem"; keyFile := "key.pem"; keyAlgorithm := Rsa;
                 selfSigned := true; certChain := 0 |} eq_refl)
    as (_ & _ & _ & Hc & _ & _ & _ & Hk & _).
  split; [exact Hk | exact Hc].
Defined.

End Certificates.

(** ** What the wait for the worker pool logs *)

Section PoolDrainLog.
Import App.

(** X19. The wait for the pool logs a warning exactly when jobs are left
    after the 5000 ms, and then it is the "still active" text; it logs the
    "Waiting ..." line exactly when jobs were extant before the wait; it
    logs nothing exactly when no job was extant before and none is left;
    it never logs more than two lines; and it leaves the pool closed to
    new jobs. *)
Theorem cleanup_log_cases (tp : ThreadPool) (elapsed : Z) :
  let log := fst (cleanup_WaitForThreadPoolWorkers tp elapsed) in
  let tp' := snd (cleanup_WaitForThreadPoolWorkers tp elapsed) in
  (forall m, In (Util.LWarning, m) log
             <-> extantJobs tp' <> 0 /\ m = still_active_msg elapsed (extantJobs tp))
  /\ (In (Util.Info, "Waiting for extant thread pool workers ...") log
      <-> extantJobs tp <> 0)
  /\ (log = [] <-> extantJobs tp = 0 /\ extantJobs tp' = 0)
  /\ (length log <= 2)%nat
  /\ blockNew tp' = true
  /\ extantJobs tp' = remainingAfter tp 5000.
Proof.
  unfold cleanup_WaitForThreadPoolWorkers, shutdownWaitForJobs, timeout, extantJobs.
  cbn [fst snd extant blockNew].
  destruct (Z.eqb_spec (extant tp) 0) as [E0|E0];
    destruct (Z.eqb_spec (remainingAfter tp 5000) 0) as [E1|E1]; cbn [negb app].
  all: repeat split; cbn [In length] in *; try lia; try discriminate; try tauto.
  all: intros; cbn [In] in *.
  all: repeat match goal with
         | H : _ \/ _ |- _ => destruct H
         | H : _ /\ _ |- _ => destruct H
         | H : False |- _ => destruct H
         | H : (?a, _) = (?b, _) |- _ =>
             first [ assert (a <> b) by discriminate;
                     exfalso; apply (f_equal fst) in H; cbn [fst] in H; congruence
                   | apply (f_equal snd) in H; cbn [snd] in H ]
         end.
  all: subst; try congruence; try lia.
  all: first [ left; reflexivity | right; left; reflexivity ].
Qed.

End PoolDrainLog.

(** ** The announced ports *)

Section AnnouncedPorts.
Import App AppMore.

(** X18. When the lines that read [public_tcp_port] and its like go
    through, nothing is logged; without the key the announced port stays
    what the listeners made it; with the key the value converted, the
    announced port is reset when the value is 0, and is the value
    otherwise, which is then from 1 to 65535. *)
Theorem publicPort_range (key : QString) (conv : option (Z * bool)) (current : option Z)
        (l : list Msg) (r : option Z) :
  publicPort key conv current = (l, Ok r) ->
  l = []
  /\ match conv with
     | None => r = current
     | Some (val, ok) =>
         ok = true
         /\ (val = 0 /\ r = None \/ r = Some val /\ 1 <= val <= 65535)
     end.
Proof.
  unfold publicPort, UINT16_MAX. destruct conv as [[val ok]|].
  - destruct ok; cbn [negb orb]; [|discriminate].
    destruct (Z.ltb_spec val 0); cbn [orb]; [discriminate|].
    destruct (Z.ltb_spec 65535 val); [discriminate|].
    destruct (Z.eqb_spec val 0); intros [= <- <-]; repeat split; [left|right];
      repeat split; try assumption; lia.
  - intros [= <- <-]. split; reflexivity.
Qed.

(** [public_tcp_port = 50001] where the first listener is on 50002. *)
Lemma publicPort_range_witness :
  publicPort "public_tcp_port" (Some (50001, true)) (Some 50002) = ([], Ok (Some 50001))
  /\ 1 <= 50001 <= 65535.
Proof.
  split; [reflexivity|].
  destruct (publicPort_range "public_tcp_port" (Some (50001, true)) (Some 50002)
              [] (Some 50001) eq_refl) as (_ & _ & [[H _]|[_ H]]);
    [discriminate H | exact H].
Defined.

End AnnouncedPorts.

(** ** Debug lines *)

Section DebugLines.
Import Util.

(** Whatever is printed holds the text of the message. *)
Lemma Log_dtor_text (ourApp : option App) (th : option ThreadInfo) (tnow : Z) (l : Log) :
  doprt l = true ->
  exists pre post,
    Log_dtor ourApp th tnow l
    = [ {| toLogger := match ourApp with
                       | Some a => App.isSomeb (logger a)
                       | None => false
                       end;
           rlevel := level l;
           text := pre +:+ str l +:+ post |} ].
Proof.
  intros Hd. unfold Log_dtor. rewrite Hd.
  set (ts := "[" +:+ _ +:+ "." +:+ _ +:+ "] ").
  set (thr := match th with Some _ => _ | None => _ end).
  destruct ourApp as [a|]; [destruct (logger a) as [g|]; [destruct (isaTTY g)|]|];
    cbn [App.isSomeb].
  - exists (ts +:+ thr +:+ (if useColor l && negb (Color_eqb (color l) Normal)
                             then colorString (color l) else EmptyString)),
           (if useColor l && negb (Color_eqb (color l) Normal)
            then colorString Normal else EmptyString).
    unfold colorify. rewrite !append_assoc. reflexivity.
  - exists (ts +:+ thr), EmptyString. rewrite append_nil_r, !append_assoc. reflexivity.
  - exists (ts +:+ thr), EmptyString. rewrite append_nil_r, !append_assoc. reflexivity.
  - exists (ts +:+ thr), EmptyString. rewrite append_nil_r, !append_assoc. reflexivity.
Qed.

(** X27. Destroying a [Debug] object emits nothing when debug verbosity
    is off. Otherwise it emits one record, at the debug level, whose text
    holds the message behind the tag "(Debug) "; the record goes to the
    logger if the application has one, and to [std::cerr] if not. Before
    the application object exists debug lines are enabled, and trace lines
    are not. *)
Theorem debug_emits_when_enabled (ourApp : option App) (th : option ThreadInfo)
        (tnow : Z) (l : Log) :
  (Debug_isEnabled ourApp = false -> Debug_emit ourApp th tnow l = [])
  /\ (Debug_isEnabled ourApp = true ->
      exists pre post,
        Debug_emit ourApp th tnow l
        = [ {| toLogger := match ourApp with
                           | Some a => App.isSomeb (logger a)
                           | None => false
                           end;
               rlevel := LDebug;
               text := pre +:+ "(Debug) " +:+ str l +:+ post |} ])
  /\ Debug_isEnabled None = true
  /\ Trace_isEnabled None = false.
Proof.
  unfold Debug_emit, Debug_dtor.
  split; [intros ->; reflexivity|]. split; [|split; reflexivity].
  intros E. rewrite E. cbn [negb].
  match goal with
  | |- context [Log_dtor ourApp th tnow ?x] =>
      destruct (Log_dtor_text ourApp th tnow x eq_refl) as (pre & post & H)
  end.
  rewrite H. cbn [level str]. exists pre, post. rewrite !append_assoc. reflexivity.
Qed.

End DebugLines.

(** ** How the constructor can leave the process *)

Section Exits.
Import App AppMore CommandLine.

Lemma not_exits_ret {A} (a : A) : ~ exits (ret a).
Proof. intros (l & c & H). discriminate. Qed.

Lemma not_exits_throw {A} (e : Exception) : ~ exits (@throw A e).
Proof. intros (l & c & H). discriminate. Qed.

Lemma not_exits_say (m : Msg) : ~ exits (say m).
Proof. intros (l & c & H). discriminate. Qed.

Lemma not_exits_bind {A B} (m : M A) (k : A -> M B) :
  ~ exits m -> (forall a, ~ exits (k a)) -> ~ exits (bind m k).
Proof.
  intros Hm Hk (l & c & H). unfold bind in H.
  destruct m as [l1 [a|e|c1]].
  - destruct (k a) as [l2 r] eqn:E. injection H as _ ->.
    apply (Hk a). exists l2, c. exact E.
  - discriminate.
  - apply Hm. exists l1, c1. reflexivity.
Qed.

Lemma not_exits_forM {A S} (l : list A) (body : S -> A -> M S) :
  (forall s x, ~ exits (body s x)) -> forall s, ~ exits (forM l s body).
Proof.
  intros Hb. induction l as [|x l IH]; intros s; cbn [forM].
  - apply not_exits_ret.
  - apply not_exits_bind; [apply Hb | intros s'; apply IH].
Qed.
















(** One option of the two: what [runHooks] logs and returns. *)
Lemma runHooks_cases (p : Parser) (optName label missing : QString)
      (registered : list (QString * option QString)) :
  let r := runHooks p optName label missing registered in
  let chosen := registered <> [] /\ isSet p optName = true in
  (r = ([], Ok 0) /\ ~ chosen)
  \/ (snd r = Ok 1 /\ chosen)
  \/ (exists e, snd r = Throw e /\ chosen).
Proof.
  cbv zeta. unfold runHooks.
  destruct registered as [|h reg]; [left; split; [reflexivity | intros [H _]; congruence]|].
  destruct (isSet p optName); [|left; split; [reflexivity | intros [_ H]; discriminate]].
  right.
  match goal with
  | |- context [bind ?m _] => assert (Hn : ~ exits m); [|destruct m as [l [u|e|c]]]
  end.
  - apply not_exits_forM. intros _ tname.
    destruct (List.find _ _) as [[name [w|]]|];
      [apply not_exits_bind; [apply not_exits_say | intros _; apply not_exits_throw]
      |apply not_exits_bind; [apply not_exits_say | intros _; apply not_exits_ret]
      |apply not_exits_throw].
  - left. cbn. split; [reflexivity | split; [discriminate | reflexivity]].
  - right. exists e. cbn. split; [reflexivity | split; [discriminate | reflexivity]].
  - exfalso. apply Hn. eexists _, _. reflexivity.
Qed.

Lemma testsAndBenches_cases (env : Env) (p : Parser) :
  let r := testsAndBenches env p in
  let chosen :=
    (registeredTests env <> [] /\ isSet p "test" = true)
    \/ (registeredBenches env <> [] /\ isSet p "bench" = true) in
  (r = ([], Ok tt) /\ ~ chosen)
  \/ (snd r = Exit 0 /\ chosen)
  \/ (snd r = Exit 1 /\ chosen
      /\ exists w, List.last (fst r) (Util.Info, EmptyString)
                   = (Util.Critical, "Caught exception: " +:+ w)).
Proof.
  cbv zeta. unfold testsAndBenches.
  pose proof (runHooks_cases p "test" "Running test: " "No such test: " (registeredTests env))
    as Ha.
  pose proof (runHooks_cases p "bench" "Running benchmark: " "No such bench: "
                (registeredBenches env)) as Hb.
  cbv zeta in Ha, Hb.
  destruct (runHooks p "test" _ _ _) as [la ra].
  destruct (runHooks p "bench" _ _ _) as [lb rb].
  cbn [snd] in Ha, Hb.
  destruct Ha as [[[= -> ->] Hna] | [[-> Hca] | (e & -> & Hca)]].
  - destruct Hb as [[[= -> ->] Hnb] | [[-> Hcb] | (e & -> & Hcb)]]; cbn.
    + left. split; [reflexivity | tauto].
    + right. left. split; [reflexivity | tauto].
    + right. right. split; [reflexivity|]. split; [tauto|].
      exists (what e). rewrite last_app_ne by discriminate. reflexivity.
  - destruct Hb as [[[= -> ->] Hnb] | [[-> Hcb] | (e & -> & Hcb)]]; cbn.
    + right. left. split; [reflexivity | tauto].
    + right. left. split; [reflexivity | tauto].
    + right. right. split; [reflexivity|]. split; [tauto|].
      exists (what e). rewrite last_app_ne by discriminate. reflexivity.
  - cbn. right. right. split; [reflexivity|]. split; [tauto|].
    exists (what e). rewrite last_app_ne by discriminate. reflexivity.
Qed.

(** X6. The run of the tests and benches ends in one of three ways. It
    returns, without a line logged, exactly when neither [--test] nor
    [--bench] is given with hooks registered for it. It leaves with exit
    code 0 only after such an option was given. And it leaves with exit
    code 1 when a hook threw or a name was not registered, the last line
    logged being then "Caught exception: " with the message. It throws
    nothing to its caller. *)
Theorem testsAndBenches_outcome (env : Env) (p : Parser) :
  let r := testsAndBenches env p in
  let chosen :=
    (registeredTests env <> [] /\ isSet p "test" = true)
    \/ (registeredBenches env <> [] /\ isSet p "bench" = true) in
  ((r = ([], Ok tt) /\ ~ chosen)
   \/ (snd r = Exit 0 /\ chosen)
   \/ (snd r = Exit 1 /\ chosen
       /\ exists w, List.last (fst r) (Util.Info, EmptyString)
                    = (Util.Critical, "Caught exception: " +:+ w)))
  /\ (forall e, snd r <> Throw e).
Proof.
  cbv zeta. pose proof (testsAndBenches_cases env p) as H. cbv zeta in H.
  split; [exact H|]. intros e He. rewrite He in H.
  destruct H as [[H _] | [[H _] | (H & _)]]; try discriminate.
  rewrite H in He. discriminate.
Qed.


(** [--version] and [-h] leave with exit code 0 and an option that was
    not added leaves with exit code 1, each without a line logged, and
    also when the required options are missing. *)
Example construct_version_help_unknown :
  App_ctor sample_env [("version", None)] [] = ([], Exited 0)
  /\ App_ctor sample_env [("h", None)] [] = ([], Exited 0)
  /\ App_ctor sample_env (required_args ++ [("no-such-option", None)])%list []
     = ([], Exited 1)
  /\ App_ctor sample_env (required_args ++ [("T", None)])%list [] = ([], Exited 1)
  /\ App_ctor sample_env [("no-such-option", None); ("help", None)] [] = ([], Exited 1).
Proof. repeat split; vm_compute; reflexivity. Qed.

(** With the options every run needs, the constructor returns. *)
Example construct_required_args :
  exists o, App_ctor sample_env required_args [] = ([], Constructed o).
Proof. eexists. vm_compute. reflexivity. Qed.

End Exits.

(** ** What a successful resolution guarantees *)

Section Stages.
Import App AppMore CommandLine.

Lemma checkSupportsSsl_Ok (env : Env) (l : list Msg) (u : unit) :
  checkSupportsSsl env = (l, Ok u) -> supportsSsl env = true.
Proof. unfold checkSupportsSsl. destruct (supportsSsl env); [reflexivity | discriminate]. Qed.

Lemma values_present (c : ConfigFile.ConfigFile) (n : QString) :
  ConfigFile.hasValue c n = true -> ConfigFile.values c n <> [].
Proof.
  unfold ConfigFile.hasValue, ConfigFile.values, ConfigFile.ConfigFile, QString.
  induction c as [|[k v] c IH]; [discriminate|].
  cbn [existsb fst]. intros H. rewrite filter_cons. cbn [fst].
  case_decide as Hk; [discriminate|].
  apply not_true_is_false in Hk. rewrite Hk in H. exact (IH H).
Qed.

Lemma value_present (c : ConfigFile.ConfigFile) (n d1 d2 : QString) :
  ConfigFile.hasValue c n = true -> ConfigFile.value c n d1 = ConfigFile.value c n d2.
Proof.
  intros H. apply values_present in H. unfold ConfigFile.value.
  destruct (ConfigFile.values c n); [congruence | reflexivity].
Qed.

(** The stages [parseArgs] went through before the certificates. *)
Lemma parseArgs_listeners_stages (env : Env) (p : Parser) (l : list Msg) (e : Early) :
  parseArgs_listeners env p = (l, Ok e) ->
  let conf := e_conf e in
  let lv := listenerValues p conf in
  resolvedConf env p = Some conf
  /\ (exists l1, requiredOptions env p conf = (l1, Ok tt))
  /\ (exists l2, parseDatadir env p conf = (l2, Ok (e_datadir e)))
  /\ (exists l3, parseHostnamePortPair env (ConfigFile.value conf "bitcoind" (value p "b")) false
                 = (l3, Ok (e_bitcoind e)))
  /\ (e_bitcoindUsesTls e = true -> supportsSsl env = true)
  /\ e_rpcuser e
     = ConfigFile.value conf "rpcuser"
         (if isSet p "u" then value p "u" else default EmptyString (getenv env RPCUSER))
  /\ e_rpcpassword e
     = ConfigFile.value conf "rpcpassword"
         (if isSet p "p" then value p "p" else default EmptyString (getenv env RPCPASSWORD))
  /\ exists tcp ws wss ssl lt lw lW ls,
       parseListeners env false (lv "tcp" "t") [("0.0.0.0", Options.DEFAULT_PORT_TCP)]
       = (lt, Ok tcp)
       /\ parseListeners env (fst tcp) (lv "ws" "w") [] = (lw, Ok ws)
       /\ parseListeners env (fst ws) (lv "wss" "W") [] = (lW, Ok wss)
       /\ parseListeners env (fst wss) (lv "ssl" "s") [] = (ls, Ok ssl)
       /\ e_wsInterfaces e = snd ws /\ e_wssInterfaces e = snd wss
       /\ e_sslInterfaces e = snd ssl
       /\ e_interfaces e
          = if isNil (lv "tcp" "t")
               && negb (isNil (lv "ws" "w") && isNil (lv "wss" "W") && isNil (lv "ssl" "s"))
            then [] else snd tcp.
Proof.
  intros H. unfold parseArgs_listeners in H.
  unbind H. unbind H. unbind H.
  destruct (flags env p a1 (initialOptions env)) as [[[dbg trc] sys] chk] eqn:Hflags.
  unbind H. unbind H. unbind H. unbind H. unbind H.
  unbind H. unbind H. unbind H. unbind H.
  injection H as _ <-. cbn.
  destruct a3.
  split; [unfold resolvedConf; rewrite Hst0, Hst1; reflexivity|].
  split; [eexists; exact Hst3|].
  split; [eexists; exact Hst4|].
  split; [eexists; exact Hst5|].
  split; [intros Htls; rewrite Htls in Hst6; exact (checkSupportsSsl_Ok _ _ _ Hst6)|].
  split; [reflexivity|]. split; [reflexivity|].
  exists a7, a8, a9, a10, l16, l18, l20, l22.
  repeat split; try assumption.
  destruct (isNil (listenerValues p a1 "tcp" "t")),
           (isNil (listenerValues p a1 "ws" "w")),
           (isNil (listenerValues p a1 "wss" "W")),
           (isNil (listenerValues p a1 "ssl" "s")); reflexivity.
Qed.

(** What [parseArgs] adds to them when it returns. *)
Lemma parseArgs_stages (env : Env) fnd pos (l : list Msg) (o : Options.Options) :
  parseArgs env fnd pos = (l, Ok o) ->
  let p := mkParser env fnd pos in
  exists e l0,
    parseArgs_listeners env p = (l0, Ok e)
    /\ Options.datadir o = e_datadir e /\ Options.bitcoind o = e_bitcoind e
    /\ Options.bitcoindUsesTls o = e_bitcoindUsesTls e
    /\ Options.rpcuser o = e_rpcuser e /\ Options.rpcpassword o = e_rpcpassword e
    /\ Options.interfaces o = e_interfaces e
    /\ Options.wsInterfaces o = e_wsInterfaces e
    /\ Options.wssInterfaces o = e_wssInterfaces e
    /\ Options.sslInterfaces o = e_sslInterfaces e
    /\ (hasSSL e || hasWSS e = true -> supportsSsl env = true).
Proof.
  intros H p. unfold parseArgs in H. fold p in H.
  unbind H. unbind H. unbind H. unbind H.
  match type of H with match ?x with _ => _ end = _ => destruct x; [discriminate|] end.
  unbind H.
  match type of H with match ?x with _ => _ end = _ => destruct x; [discriminate|] end.
  unbind H. injection H as _ <-. cbn.
  exists a, l0. repeat split; try assumption.
  intros Hany. unfold parseCerts in Hst0. rewrite Hany in Hst0.
  unbind Hst0.
  match goal with
  | Hs : checkSupportsSsl env = _ |- _ => exact (checkSupportsSsl_Ok _ _ _ Hs)
  end.
Qed.

Lemma requiredOption_Ok (env : Env) (p : Parser) conf (s l : QString)
      (envName : option QString) (lg : list Msg) (u : unit) :
  requiredOption env p conf (s, l, envName) = (lg, Ok u) ->
  (length (values p s) <= 1)%nat
  /\ (length (ConfigFile.values conf l) <= 1)%nat
  /\ (match envName with Some n => getenv env n | None => None end = None ->
      isSet p s || ConfigFile.hasValue conf l = true
      /\ isEmpty (ConfigFile.value conf l (value p s)) = false).
Proof.
  unfold requiredOption. intros H. unbind H. clear Hst.
  set (envVar := match envName with Some n => getenv env n | None => None end) in *.
  match type of H with (if ?c then _ else _) = _ => destruct c eqn:C; [discriminate|] end.
  destruct (Nat.ltb_spec 1 (length (values p s))); [discriminate|].
  destruct (Nat.ltb_spec 1 (length (ConfigFile.values conf l))); [discriminate|].
  split; [lia|]. split; [lia|].
  intros Hv. rewrite Hv in C. cbn [isSomeb negb] in C.
  rewrite orb_true_r, andb_true_r in C. apply orb_false_elim in C. destruct C as [C1 C2].
  split; [|exact C2].
  destruct (isSet p s), (ConfigFile.hasValue conf l); cbn in *; congruence.
Qed.

Lemma requiredOptions_Ok (env : Env) (p : Parser) conf (lg : list Msg) (u : unit) :
  requiredOptions env p conf = (lg, Ok u) ->
  exists l1 l2 l3 l4,
    requiredOption env p conf ("D", "datadir", None) = (l1, Ok tt)
    /\ requiredOption env p conf ("b", "bitcoind", None) = (l2, Ok tt)
    /\ requiredOption env p conf ("u", "rpcuser", Some RPCUSER) = (l3, Ok tt)
    /\ requiredOption env p conf ("p", "rpcpassword", Some RPCPASSWORD) = (l4, Ok tt).
Proof.
  unfold requiredOptions. cbn [forM]. intros H.
  unbind H. unbind H. unbind H. unbind H.
  destruct a, a0, a1, a2.
  exists l, l1, l3, l5. repeat split; assumption.
Qed.

Lemma parseDatadir_Ok (env : Env) (p : Parser) conf (l : list Msg) (d : QString) :
  parseDatadir env p conf = (l, Ok d) ->
  d = ConfigFile.value conf "datadir" (value p "D")
  /\ match fileInfo env d with
     | Some fi => isDir fi = true /\ isReadable fi = true
                  /\ isExecutable fi = true /\ isWritable fi = true
     | None => mkpath env d = true
     end.
Proof.
  unfold parseDatadir. set (dir := ConfigFile.value conf "datadir" (value p "D")).
  destruct (fileInfo env dir) as [fi|] eqn:Ef.
  - destruct (isDir fi) eqn:E1; cbn [negb]; [|discriminate].
    destruct (isReadable fi) eqn:E2, (isExecutable fi) eqn:E3, (isWritable fi) eqn:E4;
      cbn [negb orb]; try discriminate.
    intros [= <- <-]. rewrite Ef. repeat split; assumption.
  - destruct (mkpath env dir) eqn:Em; cbn [negb]; [|discriminate].
    intros [= <- <-]. rewrite Ef. split; [reflexivity | exact Em].
Qed.

Lemma parseHostnamePortPair_host_port (env : Env) (s : QString) (l : list Msg)
      (hp : QString * Z) :
  parseHostnamePortPair env s false = (l, Ok hp) ->
  isEmpty (fst hp) = false /\ snd hp <> 0.
Proof.
  unfold parseHostnamePortPair. cbn [andb].
  destruct (length (split ":" s) <? 2)%nat; [discriminate|].
  destruct (isEmpty _) eqn:Eh; [discriminate|].
  destruct (parsePort_cases env (List.last (split ":" s) EmptyString))
    as [(port & _ & Hne & Ep) | Ep]; rewrite Ep; cbn; [|discriminate].
  intros [= <- <-]. split; [exact Eh | exact Hne].
Qed.

Lemma parseListeners_Ok (env : Env) (v6 : bool) (l : list QString)
      (cur : list Options.Interface) (lg : list Msg) (r : bool * list Options.Interface) :
  parseListeners env v6 l cur = (lg, Ok r) ->
  (l = [] /\ snd r = cur) \/ (l <> [] /\ length (snd r) = length l).
Proof.
  unfold parseListeners. destruct l as [|x l]; cbn [isNil negb].
  - intros [= <- <-]. left. split; reflexivity.
  - intros H. right. split; [discriminate|]. destruct r as [v6' ifs].
    unfold parseInterfaces in H. apply parseInterfaces_acc in H.
    destruct H as (new & -> & _ & HF & _). cbn [snd app].
    symmetry. exact (Forall2_length _ _ _ HF).
Qed.

(** X4. After a successful resolution the data directory and the host of
    [bitcoind] are not empty and the port of [bitcoind] is not 0; the RPC
    user and the RPC password are not empty unless the environment
    variable that stands in for them is set; and none of [-D], [-b], [-u]
    and [-p] was given more than once. *)
Theorem required_options_present (env : Env) fnd pos (l : list Msg) (o : Options.Options) :
  parseArgs env fnd pos = (l, Ok o) ->
  let p := mkParser env fnd pos in
  isEmpty (Options.datadir o) = false
  /\ isEmpty (fst (Options.bitcoind o)) = false
  /\ snd (Options.bitcoind o) <> 0
  /\ (getenv env RPCUSER = None -> isEmpty (Options.rpcuser o) = false)
  /\ (getenv env RPCPASSWORD = None -> isEmpty (Options.rpcpassword o) = false)
  /\ Forall (fun s => (length (values p s) <= 1)%nat) ["D"; "b"; "u"; "p"].
Proof.
  intros H p. apply parseArgs_stages in H. fold p in H.
  destruct H as (e & l0 & He & -> & -> & _ & -> & -> & _).
  apply parseArgs_listeners_stages in He. cbv zeta in He.
  destruct He as (_ & [l1 Hr] & [l2 Hd] & [l3 Hb] & _ & -> & -> & _).
  apply requiredOptions_Ok in Hr.
  destruct Hr as (k1 & k2 & k3 & k4 & R1 & R2 & R3 & R4).
  apply requiredOption_Ok in R1, R2, R3, R4.
  destruct R1 as (HD1 & _ & HD), R2 as (Hb1 & _ & _),
           R3 as (Hu1 & _ & Hu), R4 as (Hp1 & _ & Hp).
  apply parseDatadir_Ok in Hd. destruct Hd as [-> _].
  apply parseHostnamePortPair_host_port in Hb. destruct Hb as [Hh Hport].
  split; [exact (proj2 (HD eq_refl))|].
  split; [exact Hh|]. split; [exact Hport|].
  split; [|split].
  - intros Hn. destruct (Hu Hn) as [Hset Hne]. rewrite Hn. cbn [default].
    destruct (ConfigFile.hasValue (e_conf e) "rpcuser") eqn:Hc.
    + rewrite (value_present _ _ _ (value p "u") Hc). exact Hne.
    + rewrite orb_false_r in Hset. rewrite Hset. exact Hne.
  - intros Hn. destruct (Hp Hn) as [Hset Hne]. rewrite Hn. cbn [default].
    destruct (ConfigFile.hasValue (e_conf e) "rpcpassword") eqn:Hc.
    + rewrite (value_present _ _ _ (value p "p") Hc). exact Hne.
    + rewrite orb_false_r in Hset. rewrite Hset. exact Hne.
  - constructor; [exact HD1|]. constructor; [exact Hb1|].
    constructor; [exact Hu1|]. constructor; [exact Hp1|]. constructor.
Qed.

(** The arguments every run needs, in the sample environment. *)
Lemma required_options_present_witness :
  isEmpty "/tmp/d" = false /\ isEmpty "127.0.0.1" = false /\ 8332 <> 0.
Proof.
  edestruct (required_options_present sample_env required_args [] [])
    as (H1 & H2 & H3 & _).
  - vm_compute. reflexivity.
  - split; [exact H1 | split; [exact H2 | exact H3]].
Defined.

(** X5. After a successful resolution each of the WS, WSS and SSL lists
    has one listener for each value given for its kind, and so has the TCP
    list when values were given for it. When none was given for TCP, the
    TCP list is the default listener, all interfaces on port 50001, if no
    value was given for any other kind either, and it is empty otherwise.
    So there is always a listener of some kind. *)
Theorem listeners_resolved (env : Env) fnd pos (l : list Msg) (o : Options.Options) :
  parseArgs env fnd pos = (l, Ok o) ->
  let lv := listenerTexts env (mkParser env fnd pos) in
  length (Options.wsInterfaces o) = length (lv "ws" "w")
  /\ length (Options.wssInterfaces o) = length (lv "wss" "W")
  /\ length (Options.sslInterfaces o) = length (lv "ssl" "s")
  /\ (lv "tcp" "t" <> [] -> length (Options.interfaces o) = length (lv "tcp" "t"))
  /\ (lv "tcp" "t" = [] ->
      Options.interfaces o
      = if isNil (lv "ws" "w") && isNil (lv "wss" "W") && isNil (lv "ssl" "s")
        then [("0.0.0.0", 50001)] else [])
  /\ (Options.interfaces o ++ Options.wsInterfaces o
      ++ Options.wssInterfaces o ++ Options.sslInterfaces o)%list <> [].
Proof.
  intros H. set (p := mkParser env fnd pos). apply parseArgs_stages in H. fold p in H.
  destruct H as (e & l0 & He & _ & _ & _ & _ & _ & -> & -> & -> & -> & _).
  apply parseArgs_listeners_stages in He. cbv zeta in He.
  destruct He as (Hconf & _ & _ & _ & _ & _ & _ & tcp & ws & wss & ssl & lt & lw & lW & ls
                  & Ht & Hw & HW & Hs & -> & -> & -> & ->).
  cbv zeta. unfold listenerTexts. rewrite Hconf.
  apply parseListeners_Ok in Ht, Hw, HW, Hs.
  destruct Ht as [[Et ->] | [Et Lt]], Hw as [[Ew ->] | [Ew Lw]],
           HW as [[EW ->] | [EW LW]], Hs as [[Es ->] | [Es Ls]].
  all: rewrite ?Et, ?Ew, ?EW, ?Es in *.
  all: destruct (listenerValues p (e_conf e) "tcp" "t") eqn:Vt;
    destruct (listenerValues p (e_conf e) "ws" "w") eqn:Vw;
    destruct (listenerValues p (e_conf e) "wss" "W") eqn:VW;
    destruct (listenerValues p (e_conf e) "ssl" "s") eqn:Vs; try congruence.
  all: cbn [isNil negb andb length app] in *.
  all: repeat split; try congruence; try discriminate; try lia.
  all: try (intros Hnil; apply (f_equal (@length _)) in Hnil;
            rewrite ?length_app in Hnil; cbn [length] in *; lia).
Qed.

(** [--ws 0.0.0.0:50003] and nothing for TCP: the default TCP listener is
    dropped. *)
Lemma listeners_resolved_witness :
  exists o,
    parseArgs sample_env (required_args ++ [("w", Some "0.0.0.0:50003")])%list [] = ([], Ok o)
    /\ Options.interfaces o = [] /\ length (Options.wsInterfaces o) = 1%nat.
Proof.
  eexists. split; [vm_compute; reflexivity|].
  edestruct (listeners_resolved sample_env
               (required_args ++ [("w", Some "0.0.0.0:50003")])%list [] [])
    as (H1 & _ & _ & _ & H2 & _).
  - vm_compute. reflexivity.
  - split; [exact (H2 eq_refl) | exact H1].
Defined.

(** X8. Where Qt has no SSL support no resolution succeeds that asks for
    TLS towards [bitcoind] or for an SSL or a WSS listener. *)
Theorem tls_needs_ssl_support (env : Env) fnd pos (l : list Msg) (o : Options.Options) :
  parseArgs env fnd pos = (l, Ok o) ->
  Options.bitcoindUsesTls o = true
  \/ Options.sslInterfaces o <> [] \/ Options.wssInterfaces o <> [] ->
  supportsSsl env = true.
Proof.
  intros H Hany. apply parseArgs_stages in H.
  destruct H as (e & l0 & He & _ & _ & Htls & _ & _ & _ & _ & Hwss & Hssl & Hsup).
  apply parseArgs_listeners_stages in He. cbv zeta in He.
  destruct He as (_ & _ & _ & _ & Hb & _).
  destruct Hany as [Ht | [Hs | Hw]].
  - apply Hb. rewrite <- Htls. exact Ht.
  - apply Hsup. unfold hasSSL. rewrite <- Hssl.
    destruct (Options.sslInterfaces o); [congruence | reflexivity].
  - apply Hsup. unfold hasWSS. rewrite <- Hwss.
    destruct (Options.wssInterfaces o); [congruence | apply orb_true_r].
Qed.

(** [--bitcoind-tls] in the sample environment. *)
Lemma tls_needs_ssl_support_witness : supportsSsl sample_env = true.
Proof.
  eapply (tls_needs_ssl_support sample_env
            (required_args ++ [("bitcoind-tls", None)])%list [] []).
  - vm_compute. reflexivity.
  - left. reflexivity.
Defined.

(** X9. After a successful resolution the data directory is the value
    given for it, and it is a directory that can be read, written and
    entered, or it did not exist and was created. *)
Theorem datadir_usable (env : Env) fnd pos (l : list Msg) (o : Options.Options) :
  parseArgs env fnd pos = (l, Ok o) ->
  match fileInfo env (Options.datadir o) with
  | Some fi => isDir fi = true /\ isReadable fi = true
               /\ isExecutable fi = true /\ isWritable fi = true
  | None => mkpath env (Options.datadir o) = true
  end.
Proof.
  intros H. apply parseArgs_stages in H.
  destruct H as (e & l0 & He & -> & _).
  apply parseArgs_listeners_stages in He. cbv zeta in He.
  destruct He as (_ & _ & [l2 Hd] & _).
  apply parseDatadir_Ok in Hd. exact (proj2 Hd).
Qed.

(** [-D /tmp/d] in the sample environment, where [/tmp/d] exists. *)
Lemma datadir_usable_witness :
  exists o,
    parseArgs sample_env required_args [] = ([], Ok o)
    /\ match fileInfo sample_env (Options.datadir o) with
       | Some fi => isDir fi = true /\ isReadable fi = true
                    /\ isExecutable fi = true /\ isWritable fi = true
       | None => mkpath sample_env (Options.datadir o) = true
       end.
Proof.
  eexists. split; [vm_compute; reflexivity|].
  apply (datadir_usable sample_env required_args [] []). vm_compute. reflexivity.
Defined.

(** X10. When a resolution succeeds although neither the command line
    nor the configuration file gives the RPC user, the environment
    variable [RPCUSER] is set and the RPC user is its value; and likewise
    for the RPC password and [RPCPASSWORD]. *)
Theorem rpc_credentials_from_env (env : Env) fnd pos (l : list Msg) (o : Options.Options)
        (conf : ConfigFile.ConfigFile) :
  let p := mkParser env fnd pos in
  parseArgs env fnd pos = (l, Ok o) ->
  resolvedConf env p = Some conf ->
  (isSet p "u" = false -> ConfigFile.hasValue conf "rpcuser" = false ->
   getenv env RPCUSER = Some (Options.rpcuser o))
  /\ (isSet p "p" = false -> ConfigFile.hasValue conf "rpcpassword" = false ->
      getenv env RPCPASSWORD = Some (Options.rpcpassword o)).
Proof.
  intros p H Hconf. apply parseArgs_stages in H. fold p in H.
  destruct H as (e & l0 & He & _ & _ & _ & -> & -> & _).
  apply parseArgs_listeners_stages in He. cbv zeta in He.
  destruct He as (Hconf' & [l1 Hr] & _ & _ & _ & -> & -> & _).
  rewrite Hconf in Hconf'. injection Hconf' as ->.
  apply requiredOptions_Ok in Hr.
  destruct Hr as (k1 & k2 & k3 & k4 & _ & _ & R3 & R4).
  apply requiredOption_Ok in R3, R4.
  destruct R3 as (_ & _ & Hu), R4 as (_ & _ & Hp).
  split; intros Hset Hc; rewrite Hset; unfold ConfigFile.value;
    rewrite (values_absent _ _ Hc).
  - destruct (getenv env RPCUSER) as [v|]; [reflexivity|].
    destruct (Hu eq_refl) as [Hor _]. rewrite Hset, Hc in Hor. discriminate.
  - destruct (getenv env RPCPASSWORD) as [v|]; [reflexivity|].
    destruct (Hp eq_refl) as [Hor _]. rewrite Hset, Hc in Hor. discriminate.
Qed.

(** [-D /tmp/d -b 127.0.0.1:8332] with [RPCUSER] and [RPCPASSWORD] set in
    the environment. *)
Lemma rpc_credentials_from_env_witness :
  exists o,
    parseArgs sample_env_rpc [("D", Some "/tmp/d"); ("b", Some "127.0.0.1:8332")] []
    = ([], Ok o)
    /\ getenv sample_env_rpc RPCUSER = Some (Options.rpcuser o)
    /\ getenv sample_env_rpc RPCPASSWORD = Some (Options.rpcpassword o).
Proof.
  eexists. split; [vm_compute; reflexivity|].
  match goal with
  | |- _ = Some (Options.rpcuser ?o) /\ _ =>
      destruct (rpc_credentials_from_env sample_env_rpc
                  [("D", Some "/tmp/d"); ("b", Some "127.0.0.1:8332")] [] [] o []
                  ltac:(vm_compute; reflexivity) ltac:(vm_compute; reflexivity))
        as [H1 H2]
  end.
  split; [exact (H1 eq_refl eq_refl) | exact (H2 eq_refl eq_refl)].
Defined.

End Stages.

(** ** Instances in the sample environment *)

Section Instances.
Import App CommandLine.

(** X11 at [-T 31], above the range: the constructor leaves with exit
    code 1 and the message about the range. *)
Lemma polltime_refused_exits_witness :
  construct sample_env (required_args ++ [("T", Some "31")])%list []
  = ([(Util.Critical,
       "The 'polltime' option must be a numeric value in the range [0.5, 30]");
      (Util.Info, "Use the -h option to show help.")],
     Exited 1).
Proof.
  exact (polltime_refused_exits sample_env (required_args ++ [("T", Some "31")])%list []
           [] [] [] [] [] (Options.double_of_Z 31 0) true
           eq_refl eq_refl eq_refl eq_refl (or_intror (or_intror eq_refl))).
Defined.

(** X12 at [-T 3], inside the range. *)
Lemma parseArgs_polltime_witness :
  exists o,
    parseArgs sample_env (required_args ++ [("T", Some "3")])%list [] = ([], Ok o)
    /\ (Options.pollTimeSecs o = S754_nan
        \/ Spec.polltime_in_range (Options.pollTimeSecs o) = true).
Proof.
  eexists. split; [vm_compute; reflexivity|].
  apply (parseArgs_polltime sample_env (required_args ++ [("T", Some "3")])%list [] []).
  vm_compute. reflexivity.
Defined.

(** X13 at [-d -d -q]. *)
Lemma quiet_disables_trace_witness :
  exists o,
    parseArgs sample_env (required_args ++ [("d", None); ("d", None); ("q", None)])%list []
    = ([], Ok o)
    /\ Util.Trace_isEnabled
         (Some {| Util.options := o; Util.logger := None; Util.thread := 0%nat |})
       = false.
Proof.
  eexists. split; [vm_compute; reflexivity|].
  apply (quiet_disables_trace sample_env
           (required_args ++ [("d", None); ("d", None); ("q", None)])%list [] []).
  - vm_compute. reflexivity.
  - reflexivity.
Defined.

End Instances.


(** ** The configuration file on the command line *)

Section ConfigFileArgument.
Import App AppMore CommandLine.

Lemma warnDupes_nil (opts : list Option_) (p : Parser) :
  warnDupes opts p [] = ([], Ok []).
Proof.
  unfold warnDupes. induction opts as [|o opts IH]; [reflexivity|].
  cbn [forM].
  assert (H : forall ns, forM ns ([] : ConfigFile.ConfigFile) (warnDupe p) = ([], Ok [])).
  { induction ns as [|n ns IHn]; [reflexivity|]. cbn [forM].
    unfold warnDupe at 1. cbn [ConfigFile.hasValue existsb andb].
    destruct (qlength n =? 1); cbn [bind ret]; rewrite IHn; reflexivity. }
  rewrite H. cbn [bind]. rewrite IH. reflexivity.
Qed.

(** X28. Once the tests and benches are out of the way, two or more
    positional arguments end the constructor with exit code 1 and the
    message that more than one configuration file was specified, and a
    single positional argument that cannot be opened ends it with exit
    code 1 and the message that names the file; in both cases nothing
    else is logged after what the tests and benches logged, except the
    help hint. *)
Theorem config_file_errors (env : Env) fnd pos (l0 : list Msg) :
  testsAndBenches env (mkParser env fnd pos) = (l0, Ok tt) ->
  (forall f g rest, pos = f :: g :: rest ->
     construct env fnd pos
     = ((l0 ++ [(Util.Critical,
                 "More than 1 config file was specified. Please specify at most 1 config file.");
                (Util.Info, "Use the -h option to show help.")])%list,
        Exited 1))
  /\ (forall f, pos = [f] -> confOpen env f = None ->
        construct env fnd pos
        = ((l0 ++ [(Util.Critical, "Unable to open config file " +:+ f);
                   (Util.Info, "Use the -h option to show help.")])%list,
           Exited 1)).
Proof.
  intros H0. split.
  - intros f g rest ->.
    apply (construct_Throw env fnd (f :: g :: rest) l0
             (BadArgs "More than 1 config file was specified. Please specify at most 1 config file.")).
    unfold parseArgs. apply bind_Throw. unfold parseArgs_listeners.
    rewrite (bind_Ok _ _ _ _ H0). cbv beta. cbn [fst snd].
    unfold openConf. cbn [positionalArguments mkParser bind throw].
    rewrite app_nil_r. reflexivity.
  - intros f -> Hf.
    apply (construct_Throw env fnd [f] l0 (BadArgs ("Unable to open config file " +:+ f))).
    unfold parseArgs. apply bind_Throw. unfold parseArgs_listeners.
    rewrite (bind_Ok _ _ _ _ H0). cbv beta. cbn [fst snd].
    unfold openConf. cbn [positionalArguments mkParser]. rewrite Hf.
    cbn [bind throw fst snd]. rewrite app_nil_r. reflexivity.
Qed.

(** Two configuration files in the sample environment. *)
Lemma config_file_errors_witness :
  construct sample_env required_args ["a.conf"; "b.conf"]
  = ([(Util.Critical,
       "More than 1 config file was specified. Please specify at most 1 config file.");
      (Util.Info, "Use the -h option to show help.")],
     Exited 1).
Proof.
  exact (proj1 (config_file_errors sample_env required_args ["a.conf"; "b.conf"] [] eq_refl)
           "a.conf" "b.conf" [] eq_refl).
Defined.

(** X29. Without a positional argument there is no configuration file:
    the warning loop logs nothing and removes nothing, the file [parseArgs]
    reads from is empty, and the values of every listener kind are the
    ones the command line gives. *)
Theorem no_config_file (env : Env) fnd (long short : QString) :
  let p := mkParser env fnd [] in
  openConf env p = ([], Ok [])
  /\ warnDupes (allOptions env) p [] = ([], Ok [])
  /\ resolvedConf env p = Some []
  /\ listenerTexts env p long short = values p short.
Proof.
  cbv zeta. set (p := mkParser env fnd []).
  assert (H1 : openConf env p = ([], Ok [])) by reflexivity.
  pose proof (warnDupes_nil (allOptions env) p) as H2.
  assert (H3 : resolvedConf env p = Some []).
  { unfold resolvedConf. rewrite H1, H2. reflexivity. }
  repeat split; try assumption.
  unfold listenerTexts. rewrite H3. reflexivity.
Qed.

End ConfigFileArgument.

(** ** The command line before the configuration file *)

Section Precedence.
Import App AppMore CommandLine.



Lemma boolValue_absent (c : ConfigFile.ConfigFile) (n : QString) :
  ConfigFile.hasValue c n = false -> ConfigFile.boolValue c n = false.
Proof. intros H. unfold ConfigFile.boolValue. rewrite (values_absent _ _ H). reflexivity. Qed.











End Precedence.
